(** * gint-extract: export of the tables of a gINT (Access) database

    A shallow embedding of [gint_extract/database.py] and
    [gint_extract/extract.py].  The program is a thin layer over three
    collaborators: the ODBC driver (pyodbc), the tabular library (pandas,
    with SQLAlchemy for the SQLite destination) and the file system (os).
    Their observable behaviour is kept in an explicit [World]; the object
    built by [GintDatabase(file_path)] is kept next to it, attribute by
    attribute, so that an attribute that was never assigned is visible as
    such.  Methods are computations in a state-and-exception monad. *)

From Stdlib Require Import Ascii String.
From stdpp Require Import base option strings list gmap fin_maps pretty.

(** ** Exceptions and results *)

(** The exception classes the program can meet; all of them derive from
    Python's [Exception]. *)
Inductive exn : Type :=
  | AttributeError (attr : string)
  | PyodbcError (msg : string)
  | DatabaseError (msg : string)
  | ValueError (msg : string)
  | FileNotFoundError (path : string)
  | FileExistsError (path : string)
  | NotADirectoryError (path : string)
  | IsADirectoryError (path : string)
  | OperationalError (msg : string).

(** [str(e)], as interpolated by the f-string of [__init__]. *)
Definition exn_str (e : exn) : string :=
  match e with
  | AttributeError attr =>
      "'GintDatabase' object has no attribute '" +:+ attr +:+ "'"
  | PyodbcError msg | DatabaseError msg | ValueError msg
  | OperationalError msg => msg
  | FileNotFoundError path => "[Errno 2] No such file or directory: '" +:+ path +:+ "'"
  | FileExistsError path => "[Errno 17] File exists: '" +:+ path +:+ "'"
  | NotADirectoryError path => "[Errno 20] Not a directory: '" +:+ path +:+ "'"
  | IsADirectoryError path => "[Errno 21] Is a directory: '" +:+ path +:+ "'"
  end.

Inductive res (A : Type) : Type :=
  | Ok (a : A)
  | Raise (e : exn).
Arguments Ok {A} a.
Arguments Raise {A} e.

Definition is_ok {A} (r : res A) : bool :=
  match r with Ok _ => true | Raise _ => false end.

Definition res_map {A B} (f : A → B) (r : res A) : res B :=
  match r with Ok a => Ok (f a) | Raise e => Raise e end.

(** ** The monad: state and exceptions

    A raised exception keeps the state reached so far: what was written
    before the failure stays written. *)
Definition M (S A : Type) : Type := S → res A * S.

Definition ret {S A} (a : A) : M S A := λ st, (Ok a, st).

Definition bind {S A B} (m : M S A) (k : A → M S B) : M S B :=
  λ st, match m st with
        | (Ok a, st') => k a st'
        | (Raise e, st') => (Raise e, st')
        end.

Definition raise {S A} (e : exn) : M S A := λ st, (Raise e, st).

(** [try: body / except Exception as e: handler e]. *)
Definition try_except {S A} (body : M S A) (handler : exn → M S A) : M S A :=
  λ st, match body st with
        | (Ok a, st') => (Ok a, st')
        | (Raise e, st') => handler e st'
        end.

(** [try: body / finally: cleanup]. *)
Definition try_finally {S A} (body : M S A) (cleanup : M S unit) : M S A :=
  λ st, match body st with
        | (r, st') =>
            match cleanup st' with
            | (Ok _, st'') => (r, st'')
            | (Raise e, st'') => (Raise e, st'')
            end
        end.

Notation "x <- m ;; k" := (bind m (λ x, k))
  (at level 100, m at next level, k at level 200, right associativity).
Notation "m ;; k" := (bind m (λ _, k))
  (at level 100, k at level 200, right associativity).

(** [for x in l: body x]. *)
Fixpoint for_each {S A} (l : list A) (body : A → M S unit) : M S unit :=
  match l with
  | [] => ret tt
  | x :: l' => body x ;; for_each l' body
  end.

(** [[x for x in l if cond x]] with an effectful condition. *)
Fixpoint comprehension_if {S A} (l : list A) (cond : A → M S bool)
  : M S (list A) :=
  match l with
  | [] => ret []
  | x :: l' =>
      b <- cond x ;;
      r <- comprehension_if l' cond ;;
      ret (if b : bool then x :: r else r)
  end.

(** ** The tabular library's interface

    What pandas does to cell values and to CSV text is the library's
    business; the program only chooses the arguments.  [scalar] is the type
    of cell values the driver delivers, [cell_text] the text pandas writes
    for one of them, [csv_encode header rows] the comma-delimited text of a
    header row followed by data rows, and [index_label i] the label of row
    [i] in the default index of a frame read by [read_sql]. *)
Class Tabular : Type := {
  scalar : Type;
  cell_text : scalar → string;
  index_label : nat → scalar;
  csv_encode : list string → list (list string) → string;
}.

(** A path is held as its list of components; an absolute path starts with
    the component ["/"].  Empty components and ["."] are dropped, [".."] and
    links are not resolved: the list of components names the file the
    operating system reaches for the paths [plain_path] accepts, and the
    statements about what the file system holds are made for those. *)
Abbreviation path := (list string) (only parsing).

Section Program.
Context {lib : Tabular}.

(** [gint_extract.vars.SYSTEM_TABLES]: the denylist of system tables. *)
Variable SYSTEM_TABLES : list string.

(** ** Data *)

(** A TableSnapshot: named columns and rows in cursor order. *)
Record DataFrame : Type := {
  columns : list string;
  rows : list (list scalar);
}.

(** [len(df)]: the number of rows. *)
Definition len (df : DataFrame) : nat := length (rows df).

(** The frame with its index materialised as a leading column, as the
    writers do when called with [index=True]. *)
Definition with_index (label : string) (df : DataFrame) : DataFrame :=
  {| columns := label :: columns df;
     rows := imap (λ i r, index_label i :: r) (rows df) |}.

(** A row of [cursor.tables()]. *)
Record Row : Type := {
  table_name : string;
  table_type : string;
}.

(** An Access file as seen through the driver: what [cursor.tables()]
    yields (or raises), and what a query returns (or raises). *)
Record Source : Type := {
  catalog : res (list Row);
  run_query : string → res DataFrame;
}.

(** ** File system *)

Fixpoint split_go (cur : string) (s : string) : list string :=
  match s with
  | EmptyString => [String.rev cur]
  | String c s' =>
      if decide (c = "/"%char) then String.rev cur :: split_go "" s'
      else split_go (String c cur) s'
  end.

Definition is_abs (s : string) : bool :=
  match s with String c _ => bool_decide (c = "/"%char) | _ => false end.

Definition parse_path (s : string) : path :=
  (if is_abs s then ["/"] else []) ++
  filter (λ c, c ≠ "" ∧ c ≠ ".") (split_go "" s).

(** A component that names an entry of its directory. *)
Definition plain_component (c : string) : bool :=
  negb (bool_decide (c = "" ∨ c = "." ∨ c = "..")).

(** A path written as names separated by single slashes, with or without a
    leading slash: no empty, ["."] or [".."] component and no trailing
    slash.  On such a path the operating system resolves nothing away. *)
Definition plain_path (s : string) : bool :=
  match split_go "" s with
  | [] => false
  | c :: cs =>
      (if is_abs s then true else plain_component c) &&
      forallb plain_component cs
  end.

Inductive node : Type :=
  | NDir
  | NFile (text : string)
  | NSqlite (tables : gmap string DataFrame).

(** The root and the working directory always exist. *)
Definition lookup_path (f : gmap path node) (p : path) : option node :=
  if decide (p = [] ∨ p = ["/"]) then Some NDir else f !! p.

(** The ancestors of a path and the path itself, shortest first. *)
Fixpoint prefixes_from (pre p : path) : list path :=
  match p with
  | [] => []
  | c :: p' => (pre ++ [c]) :: prefixes_from (pre ++ [c]) p'
  end.

Definition prefixes (p : path) : list path := prefixes_from [] p.

Definition parent (p : path) : path := removelast p.

(** ** The world and the object *)

Record World : Type := {
  odbc : gmap string Source;
  fs : gmap path node;
  memdb : gmap string DataFrame;
  stdout : list string;
}.

Definition set_fs (f : gmap path node) (w : World) : World :=
  {| odbc := odbc w; fs := f; memdb := memdb w; stdout := stdout w |}.
Definition set_memdb (m : gmap string DataFrame) (w : World) : World :=
  {| odbc := odbc w; fs := fs w; memdb := m; stdout := stdout w |}.
Definition set_stdout (o : list string) (w : World) : World :=
  {| odbc := odbc w; fs := fs w; memdb := memdb w; stdout := o |}.

(** The attributes of a [GintDatabase] instance; [None] is an attribute that
    has not been assigned. *)
Record GintDatabase : Type := {
  connStr : option string;
  file_path : option string;
  cnxn : option string;
  cursor : option string;
  table_names : option (list string);
  non_empty_tables : option (list string);
}.

Definition blank : GintDatabase :=
  {| connStr := None; file_path := None; cnxn := None; cursor := None;
     table_names := None; non_empty_tables := None |}.

Definition set_connStr (v : string) (o : GintDatabase) : GintDatabase :=
  {| connStr := Some v; file_path := file_path o; cnxn := cnxn o;
     cursor := cursor o; table_names := table_names o;
     non_empty_tables := non_empty_tables o |}.
Definition set_file_path (v : string) (o : GintDatabase) : GintDatabase :=
  {| connStr := connStr o; file_path := Some v; cnxn := cnxn o;
     cursor := cursor o; table_names := table_names o;
     non_empty_tables := non_empty_tables o |}.
Definition set_cnxn (v : string) (o : GintDatabase) : GintDatabase :=
  {| connStr := connStr o; file_path := file_path o; cnxn := Some v;
     cursor := cursor o; table_names := table_names o;
     non_empty_tables := non_empty_tables o |}.
Definition set_cursor (v : string) (o : GintDatabase) : GintDatabase :=
  {| connStr := connStr o; file_path := file_path o; cnxn := cnxn o;
     cursor := Some v; table_names := table_names o;
     non_empty_tables := non_empty_tables o |}.
Definition set_table_names (v : list string) (o : GintDatabase) : GintDatabase :=
  {| connStr := connStr o; file_path := file_path o; cnxn := cnxn o;
     cursor := cursor o; table_names := Some v;
     non_empty_tables := non_empty_tables o |}.
Definition set_non_empty_tables (v : list string) (o : GintDatabase) : GintDatabase :=
  {| connStr := connStr o; file_path := file_path o; cnxn := cnxn o;
     cursor := cursor o; table_names := table_names o;
     non_empty_tables := Some v |}.

Record State : Type := {
  self : GintDatabase;
  world : World;
}.

(** ** Programs over the object and the world *)
Local Abbreviation Prog := (M State).

(** [self.name], raising [AttributeError] when it was never assigned. *)
Definition getattr {A} (proj : GintDatabase → option A) (name : string) : Prog A :=
  λ st, match proj (self st) with
        | Some a => (Ok a, st)
        | None => (Raise (AttributeError name), st)
        end.

(** [self.name = v]. *)
Definition setattr (upd : GintDatabase → GintDatabase) : Prog unit :=
  λ st, (Ok tt, {| self := upd (self st); world := world st |}).

Definition get_world : Prog World := λ st, (Ok (world st), st).

Definition put_world (w : World) : Prog unit :=
  λ st, (Ok tt, {| self := self st; world := w |}).

(** ** The collaborators *)

(** [print(msg)]. *)
Definition print (msg : string) : Prog unit :=
  w <- get_world ;; put_world (set_stdout (stdout w ++ [msg]) w).

(** [pyodbc.connect(connStr)]: the handle of the source registered under the
    connection string, or the driver's error. *)
Definition pyodbc_connect (cs : string) : Prog string :=
  w <- get_world ;;
  match odbc w !! cs with
  | Some _ => ret cs
  | None => raise (PyodbcError "unable to open the database file")
  end.

(** [cnxn.cursor()]. *)
Definition cnxn_cursor (c : string) : Prog string := ret c.

(** [cursor.tables()], consumed entirely. *)
Definition cursor_tables (c : string) : Prog (list Row) :=
  w <- get_world ;;
  match odbc w !! c with
  | Some src =>
      match catalog src with Ok rs => ret rs | Raise e => raise e end
  | None => raise (PyodbcError "the connection is closed")
  end.

(** [pd.read_sql(sql, cnxn)]. *)
Definition pd_read_sql (sql : string) (c : string) : Prog DataFrame :=
  w <- get_world ;;
  match odbc w !! c with
  | Some src =>
      match run_query src sql with Ok df => ret df | Raise e => raise e end
  | None => raise (PyodbcError "the connection is closed")
  end.

(** [os.path.exists(p)]. *)
Definition os_path_exists (p : string) : Prog bool :=
  w <- get_world ;;
  ret (if decide (p = "") then false
       else bool_decide (is_Some (lookup_path (fs w) (parse_path p)))).

(** [os.makedirs(p)]: the leaf and every missing ancestor become
    directories; a directory already made stays when a later one fails. *)
Fixpoint makedirs_go (raw : string) (f : gmap path node) (ps : list path)
  : res unit * gmap path node :=
  match ps with
  | [] => (Raise (if decide (raw = "") then FileNotFoundError raw
                  else FileExistsError raw), f)
  | p :: ps' =>
      match ps' with
      | [] =>
          match lookup_path f p with
          | None => (Ok tt, <[p := NDir]> f)
          | Some _ => (Raise (FileExistsError raw), f)
          end
      | _ :: _ =>
          match lookup_path f p with
          | None => makedirs_go raw (<[p := NDir]> f) ps'
          | Some NDir => makedirs_go raw f ps'
          | Some _ => (Raise (NotADirectoryError raw), f)
          end
      end
  end.

Definition os_makedirs (p : string) : Prog unit :=
  w <- get_world ;;
  match makedirs_go p (fs w) (prefixes (parse_path p)) with
  | (r, f) =>
      put_world (set_fs f w) ;;
      match r with Ok _ => ret tt | Raise e => raise e end
  end.

Definition ends_with_slash (s : string) : bool :=
  match String.rev s with
  | String c _ => bool_decide (c = "/"%char)
  | EmptyString => false
  end.

(** [os.path.join(a, b)]. *)
Definition os_path_join (a b : string) : string :=
  if is_abs b then b
  else if decide (a = "") then b
  else if ends_with_slash a then a +:+ b
  else a +:+ "/" +:+ b.

(** [open(p, "w")] followed by writing [text] and closing: the file is
    created or truncated; its directory must exist. *)
Definition write_text (p : string) (text : string) : Prog unit :=
  w <- get_world ;;
  let pp := parse_path p in
  match lookup_path (fs w) pp with
  | Some NDir => raise (IsADirectoryError p)
  | _ =>
      match lookup_path (fs w) (parent pp) with
      | Some NDir => put_world (set_fs (<[pp := NFile text]> (fs w)) w)
      | Some _ => raise (NotADirectoryError p)
      | None => raise (FileNotFoundError p)
      end
  end.

(** [df.to_csv(p, index=index)] with the other arguments at their defaults:
    comma-delimited, a header row, every cell as text. *)
Definition to_csv_text (df : DataFrame) (index : bool) : string :=
  let df' := if index then with_index "" df else df in
  csv_encode (columns df') (map (map cell_text) (rows df')).

Definition DataFrame_to_csv (df : DataFrame) (p : string) (index : bool) : Prog unit :=
  write_text p (to_csv_text df index).

(** *** The SQLite destination *)

Inductive sqlite_conn : Type :=
  | ConnMemory
  | ConnFile (p : path).

Inductive if_exists_mode : Type := IfFail | IfReplace | IfAppend.

Fixpoint drop_prefix (pre s : string) : option string :=
  match pre, s with
  | EmptyString, _ => Some s
  | String a pre', String b s' =>
      if decide (a = b) then drop_prefix pre' s' else None
  | String _ _, EmptyString => None
  end.

(** [create_engine(url)]: nothing is opened yet. *)
Definition create_engine (url : string) : Prog string := ret url.

(** [engine.connect()]: an empty path is the private in-memory database;
    otherwise the file is opened, and created empty when it is missing. *)
Definition engine_connect (url : string) : Prog sqlite_conn :=
  match drop_prefix "sqlite:///" url with
  | None => raise (OperationalError "unsupported database URL")
  | Some "" =>
      w <- get_world ;; put_world (set_memdb ∅ w) ;; ret ConnMemory
  | Some file =>
      w <- get_world ;;
      let p := parse_path file in
      match lookup_path (fs w) p with
      | Some NDir => raise (OperationalError "unable to open database file")
      | Some _ => ret (ConnFile p)
      | None =>
          match lookup_path (fs w) (parent p) with
          | Some NDir =>
              put_world (set_fs (<[p := NFile ""]> (fs w)) w) ;;
              ret (ConnFile p)
          | _ => raise (OperationalError "unable to open database file")
          end
      end
  end.

(** [conn.close()], run when the [with] block is left. *)
Definition conn_close (c : sqlite_conn) : Prog unit :=
  match c with
  | ConnMemory => w <- get_world ;; put_world (set_memdb ∅ w)
  | ConnFile _ => ret tt
  end.

(** [with engine.connect() as conn: body conn]. *)
Definition with_connect {A} (url : string) (body : sqlite_conn → Prog A)
  : Prog A :=
  c <- engine_connect url ;;
  try_finally (body c) (conn_close c).

(** The tables of the database behind a connection; an empty file is an
    empty database, any other text file is not a database. *)
Definition conn_tables (w : World) (c : sqlite_conn)
  : option (gmap string DataFrame) :=
  match c with
  | ConnMemory => Some (memdb w)
  | ConnFile p =>
      match lookup_path (fs w) p with
      | Some (NSqlite db) => Some db
      | Some (NFile "") => Some ∅
      | _ => None
      end
  end.

Definition set_conn_tables (c : sqlite_conn) (db : gmap string DataFrame)
    (w : World) : World :=
  match c with
  | ConnMemory => set_memdb db w
  | ConnFile p => set_fs (<[p := NSqlite db]> (fs w)) w
  end.

Definition append_rows (old new : DataFrame) : DataFrame :=
  {| columns := columns old; rows := rows old ++ rows new |}.

(** [df.to_sql(name, conn, if_exists=mode, index=index)]. *)
Definition DataFrame_to_sql (df : DataFrame) (name : string) (c : sqlite_conn)
    (mode : if_exists_mode) (index : bool) : Prog unit :=
  w <- get_world ;;
  let df' := if index then with_index "index" df else df in
  match conn_tables w c with
  | None => raise (DatabaseError "file is not a database")
  | Some db =>
      match mode, db !! name with
      | IfFail, Some _ =>
          raise (ValueError ("Table '" +:+ name +:+ "' already exists."))
      | IfAppend, Some old =>
          put_world (set_conn_tables c (<[name := append_rows old df']> db) w)
      | _, _ =>
          put_world (set_conn_tables c (<[name := df']> db) w)
      end
  end.

(** ** database.py *)

Definition check_dir (dir_path : string) : Prog unit :=
  e <- os_path_exists dir_path ;;
  if negb e then os_makedirs dir_path else ret tt.

(** [[row.table_name for row in rs if row.table_name not in SYSTEM_TABLES]]. *)
Fixpoint user_table_names (rs : list Row) : list string :=
  match rs with
  | [] => []
  | row :: rs' =>
      if bool_decide (table_name row ∉ SYSTEM_TABLES)
      then table_name row :: user_table_names rs'
      else user_table_names rs'
  end.

Definition select_all (table : string) : string :=
  "SELECT * FROM [" +:+ table +:+ "]".

Definition get_table (table : string) : Prog DataFrame :=
  let sql := select_all table in
  c <- getattr cnxn "cnxn" ;;
  pd_read_sql sql c.

Definition table_length (table : string) : Prog nat :=
  let sql := select_all table in
  c <- getattr cnxn "cnxn" ;;
  df <- pd_read_sql sql c ;;
  ret (len df).

(** [r"DRIVER={Microsoft Access Driver (*.mdb, *.accdb)};" r"DBQ=%s;" % file_path]. *)
Definition conn_string (path_arg : string) : string :=
  "DRIVER={Microsoft Access Driver (*.mdb, *.accdb)};" +:+
  "DBQ=" +:+ path_arg +:+ ";".

Definition __init__ (path_arg : string) : Prog unit :=
  setattr (set_connStr (conn_string path_arg)) ;;
  setattr (set_file_path path_arg) ;;
  cs <- getattr connStr "connStr" ;;
  c <- pyodbc_connect cs ;;
  setattr (set_cnxn c) ;;
  c <- getattr cnxn "cnxn" ;;
  cur <- cnxn_cursor c ;;
  setattr (set_cursor cur) ;;
  try_except
    (cur <- getattr cursor "cursor" ;;
     rs <- cursor_tables cur ;;
     setattr (set_table_names (user_table_names rs)) ;;
     names <- getattr table_names "table_names" ;;
     ne <- comprehension_if names
             (λ table, n <- table_length table ;; ret (bool_decide (0 < n))) ;;
     setattr (set_non_empty_tables ne))
    (λ e, print ("Failed to load database with " +:+ exn_str e)).

(** [GintDatabase(file_path)]: a fresh instance, then [__init__]. *)
Definition construct (path_arg : string) : Prog unit :=
  (λ st, (Ok tt, {| self := blank; world := world st |})) ;;
  __init__ path_arg.

Definition write_table_to_csv (table directory : string) : Prog unit :=
  check_dir directory ;;
  df <- get_table table ;;
  DataFrame_to_csv df (os_path_join directory (table +:+ ".csv")) false.

(** A [dict]: keys in insertion order, assigning to a present key keeps its
    place. *)
Fixpoint dict_set {V} (k : string) (v : V) (d : list (string * V))
  : list (string * V) :=
  match d with
  | [] => [(k, v)]
  | (k', v') :: d' =>
      if decide (k' = k) then (k', v) :: d' else (k', v') :: dict_set k v d'
  end.

Fixpoint dfs_loop (tables : list string) (dataframes : list (string * DataFrame))
  : Prog (list (string * DataFrame)) :=
  match tables with
  | [] => ret dataframes
  | table :: tables' =>
      df <- get_table table ;;
      dfs_loop tables' (dict_set table df dataframes)
  end.

Definition dfs : Prog (list (string * DataFrame)) :=
  let dataframes := [] in
  tables <- getattr non_empty_tables "non_empty_tables" ;;
  dfs_loop tables dataframes.

Definition write_all_tables_to_csv (directory : string) : Prog unit :=
  check_dir directory ;;
  tables <- getattr non_empty_tables "non_empty_tables" ;;
  for_each tables (λ table, write_table_to_csv table directory).

Definition write_table_to_sqlite (table : string) (sqlite_conn : sqlite_conn)
  : Prog unit :=
  df <- get_table table ;;
  DataFrame_to_sql df table sqlite_conn IfReplace false.

Definition write_all_tables_to_sqlite (destination_path : string) : Prog unit :=
  sqlite_engine <- create_engine ("sqlite:///" +:+ destination_path) ;;
  with_connect sqlite_engine (λ sqlite_conn,
    tables <- getattr non_empty_tables "non_empty_tables" ;;
    for_each tables (λ table, write_table_to_sqlite table sqlite_conn)).

(** ** extract.py *)

(** The namespace returned by [parser.parse_args()]. *)
Record Args : Type := {
  arg_file_path : string;
  arg_dir : string;
  arg_format : string;
}.

Definition main (args : Args) : Prog unit :=
  construct (arg_file_path args) ;;
  if decide (arg_format args = "csv")
  then write_all_tables_to_csv (arg_dir args)
  else if decide (arg_format args = "sqlite")
  then write_all_tables_to_sqlite (arg_dir args)
  else ret tt.

(** The state in which the process starts: no object yet. *)
Definition boot (w : World) : State := {| self := blank; world := w |}.

(** The process: exit status 0 when [main] returns, 1 when an exception
    escapes it. *)
Definition run_main (args : Args) (w : World) : nat * World :=
  match main args (boot w) with
  | (Ok _, st) => (0, world st)
  | (Raise _, st) => (1, world st)
  end.

(** ** Notions used in the statements *)

(** What the source answers, now, to the full read of a table through the
    connection the object holds. *)
Definition read_table (st : State) (table : string) : res DataFrame :=
  match cnxn (self st) with
  | None => Raise (AttributeError "cnxn")
  | Some c =>
      match odbc (world st) !! c with
      | Some src => run_query src (select_all table)
      | None => Raise (PyodbcError "the connection is closed")
      end
  end.

(** The object once [__init__] has opened the connection and the cursor,
    before the enumeration. *)
Definition connected (path_arg : string) : GintDatabase :=
  set_cursor (conn_string path_arg)
    (set_cnxn (conn_string path_arg)
       (set_file_path path_arg (set_connStr (conn_string path_arg) blank))).

(** The condition of the second comprehension of [__init__]. *)
Definition has_rows (table : string) : Prog bool :=
  n <- table_length table ;; ret (bool_decide (0 < n)).

(** [os.path.exists(p)] as a function of the world. *)
Definition path_exists (w : World) (p : string) : bool :=
  if decide (p = "") then false
  else bool_decide (is_Some (lookup_path (fs w) (parse_path p))).

Definition is_dir_or_free (o : option node) : bool :=
  match o with None | Some NDir => true | Some _ => false end.

Definition is_directory (o : option node) : bool :=
  match o with Some NDir => true | _ => false end.

(** The file [write_table_to_csv] writes for a table. *)
Definition csv_path (directory table : string) : path :=
  parse_path (os_path_join directory (table +:+ ".csv")).

(** The conditions under which the file system lets [write_table_to_csv]
    through: the directory is a plain path, neither it nor an ancestor is a
    regular file, the file to write lies directly in it and is not itself a
    directory. *)
Definition csv_writable (w : World) (directory table : string) : bool :=
  plain_path directory &&
  forallb (λ q, is_dir_or_free (lookup_path (fs w) q))
          (prefixes (parse_path directory)) &&
  bool_decide (parent (csv_path directory table) = parse_path directory) &&
  negb (is_directory (lookup_path (fs w) (csv_path directory table))).


(** Reading a [dict]. *)
Fixpoint dict_get {V} (k : string) (d : list (string * V)) : option V :=
  match d with
  | [] => None
  | (k', v) :: d' => if decide (k' = k) then Some v else dict_get k d'
  end.

(** The distinct elements of a list, each at its first occurrence. *)
Fixpoint first_occurrences (l : list string) : list string :=
  match l with
  | [] => []
  | x :: l' => x :: filter (λ y, y ≠ x) (first_occurrences l')
  end.

(** A program leaves an observation of the state as it found it, whether
    it returns or raises. *)
Definition preserves {X A} (f : State → X) (m : Prog A) : Prop :=
  ∀ st, f (snd (m st)) = f st.

(** What the exports leave alone: the object and the sources. *)
Definition source_view (st : State) : GintDatabase * gmap string Source :=
  (self st, odbc (world st)).


(** The operations a caller can run on a constructed object. *)
Inductive operation : Type :=
  | OpGetTable (table : string)
  | OpTableLength (table : string)
  | OpWriteTableToCsv (table directory : string)
  | OpDfs
  | OpWriteAllTablesToCsv (directory : string)
  | OpWriteTableToSqlite (table : string) (c : sqlite_conn)
  | OpWriteAllTablesToSqlite (destination_path : string).

Definition run_operation (o : operation) : Prog unit :=
  match o with
  | OpGetTable table => get_table table ;; ret tt
  | OpTableLength table => table_length table ;; ret tt
  | OpWriteTableToCsv table directory => write_table_to_csv table directory
  | OpDfs => dfs ;; ret tt
  | OpWriteAllTablesToCsv directory => write_all_tables_to_csv directory
  | OpWriteTableToSqlite table c => write_table_to_sqlite table c
  | OpWriteAllTablesToSqlite destination_path =>
      write_all_tables_to_sqlite destination_path
  end.


(** The conditions under which [check_dir] gets its directory: it is a
    plain path and neither it nor an ancestor is a regular file. *)
Definition dir_ready (w : World) (directory : string) : bool :=
  plain_path directory &&
  forallb (λ q, is_dir_or_free (lookup_path (fs w) q))
          (prefixes (parse_path directory)).


(** What no operation on a constructed object changes: the object, the
    sources and the standard output. *)
Definition quiet_view (st : State)
  : GintDatabase * gmap string Source * list string :=
  (self st, odbc (world st), stdout (world st)).

End Program.

(** ** A sample instance

    A small library instance and a small site database, used to run the
    program on concrete inputs. *)

Inductive value : Type :=
  | VNull
  | VInt (z : Z)
  | VText (s : string).

Definition value_text (v : value) : string :=
  match v with
  | VNull => ""
  | VInt z => pretty z
  | VText s => s
  end.

(** *** A CSV dialect

    Comma-delimited records ended by a line feed; a field is quoted when it
    holds a comma, a quote, a line feed or a carriage return, with its
    quotes doubled; a record made of one empty field is written as an empty
    quoted field, so that it differs from an empty record. *)

Definition comma : ascii := ","%char.
Definition dquote : ascii := ascii_of_nat 34.
Definition lf : ascii := ascii_of_nat 10.
Definition cr : ascii := ascii_of_nat 13.

Definition newline : string := String lf "".

Definition is_special (c : ascii) : bool :=
  bool_decide (c = comma ∨ c = dquote ∨ c = lf ∨ c = cr).

Fixpoint escape (s : list ascii) : list ascii :=
  match s with
  | [] => []
  | c :: s' =>
      if decide (c = dquote) then dquote :: dquote :: escape s'
      else c :: escape s'
  end.

Definition enc_field (f : list ascii) : list ascii :=
  if existsb is_special f then dquote :: escape f ++ [dquote] else f.

Fixpoint enc_fields (fs : list (list ascii)) : list ascii :=
  match fs with
  | [] => []
  | f :: fs' =>
      match fs' with
      | [] => enc_field f
      | _ :: _ => enc_field f ++ comma :: enc_fields fs'
      end
  end.

Definition enc_row (r : list (list ascii)) : list ascii :=
  match r with
  | [[]] => [dquote; dquote; lf]
  | _ => enc_fields r ++ [lf]
  end.

Definition enc_table (rows : list (list (list ascii))) : list ascii :=
  concat (map enc_row rows).

Definition quoted_csv (header : list string) (rows : list (list string))
  : string :=
  string_of_list_ascii
    (enc_table (map (map list_ascii_of_string) (header :: rows))).

Definition sample_lib : Tabular :=
  {| scalar := value;
     cell_text := value_text;
     index_label := λ i, VInt (Z.of_nat i);
     csv_encode := quoted_csv |}.

Definition sample_system_tables : list string :=
  ["MSysObjects"; "MSysACEs"; "MSysQueries"; "MSysRelationships"].

Definition table1 : @DataFrame sample_lib :=
  @Build_DataFrame sample_lib
    ["col1"; "col2"] [[VInt 1; VInt 3]; [VInt 2; VInt 4]].

Definition table2 : @DataFrame sample_lib :=
  @Build_DataFrame sample_lib ["col1"; "col2"] [].

Definition site_catalog : list Row :=
  [ {| table_name := "MSysObjects"; table_type := "SYSTEM TABLE" |};
    {| table_name := "table1"; table_type := "TABLE" |};
    {| table_name := "table2"; table_type := "TABLE" |} ].

Definition site_query (sql : string) : res (@DataFrame sample_lib) :=
  if decide (sql = "SELECT * FROM [table1]") then Ok table1
  else if decide (sql = "SELECT * FROM [table2]") then Ok table2
  else Raise (DatabaseError "no such table").

Definition site_source : @Source sample_lib :=
  {| catalog := Ok site_catalog; run_query := site_query |}.

(** A file the driver opens but cannot enumerate. *)
Definition damaged_source : @Source sample_lib :=
  {| catalog := Raise (PyodbcError "not a valid database file");
     run_query := λ _, Raise (DatabaseError "not a valid database file") |}.

Definition site_world : @World sample_lib :=
  {| odbc := {[ conn_string "site.mdb" := site_source;
                conn_string "damaged.mdb" := damaged_source ]};
     fs := ∅; memdb := ∅; stdout := [] |}.

(** The state once [GintDatabase("site.mdb")] has returned. *)
Definition site_state : @State sample_lib :=
  snd (construct sample_system_tables "site.mdb" (boot site_world)).

(** The state once [GintDatabase("damaged.mdb")] has returned. *)
Definition damaged_state : @State sample_lib :=
  snd (construct sample_system_tables "damaged.mdb" (boot site_world)).

(** The same site later: [table1] has been emptied and [table2] filled
    behind the back of the object constructed before. *)
Definition later_query (sql : string) : res (@DataFrame sample_lib) :=
  if decide (sql = "SELECT * FROM [table1]") then Ok table2
  else if decide (sql = "SELECT * FROM [table2]") then Ok table1
  else Raise (DatabaseError "no such table").

Definition later_state : @State sample_lib :=
  {| self := self site_state;
     world :=
       {| odbc := <[conn_string "site.mdb" :=
                      {| catalog := Ok site_catalog; run_query := later_query |}]>
                    (odbc (world site_state));
          fs := fs (world site_state);
          memdb := memdb (world site_state);
          stdout := stdout (world site_state) |} |}.

(** A site on which the read of [table2] fails. *)
Definition flaky_query (sql : string) : res (@DataFrame sample_lib) :=
  if decide (sql = "SELECT * FROM [table1]") then Ok table1
  else Raise (DatabaseError "table2 is corrupt").

Definition flaky_source : @Source sample_lib :=
  {| catalog := Ok site_catalog; run_query := flaky_query |}.

Definition flaky_world : @World sample_lib :=
  {| odbc := {[ conn_string "flaky.mdb" := flaky_source ]};
     fs := ∅; memdb := ∅; stdout := [] |}.

(** The state once [GintDatabase("flaky.mdb")] has returned. *)
Definition flaky_state : @State sample_lib :=
  snd (construct sample_system_tables "flaky.mdb" (boot flaky_world)).


(** The site with a regular file where the export directory should be. *)
Definition blocked_state : @State sample_lib :=
  {| self := self site_state;
     world := set_fs {[ ["out"] := NFile "not a directory" ]}
                (world site_state) |}.

(** A survey with three tables that hold rows. *)
Definition survey_catalog : list Row :=
  [ {| table_name := "table1"; table_type := "TABLE" |};
    {| table_name := "table2"; table_type := "TABLE" |};
    {| table_name := "table3"; table_type := "TABLE" |} ].

Definition survey_query (sql : string) : res (@DataFrame sample_lib) :=
  if decide (sql = "SELECT * FROM [table1]") then Ok table1
  else if decide (sql = "SELECT * FROM [table2]") then Ok table1
  else if decide (sql = "SELECT * FROM [table3]") then Ok table1
  else Raise (DatabaseError "no such table").

Definition survey_world : @World sample_lib :=
  {| odbc := {[ conn_string "survey.mdb" :=
                  {| catalog := Ok survey_catalog;
                     run_query := survey_query |} ]};
     fs := ∅; memdb := ∅; stdout := [] |}.

(** The state once [GintDatabase("survey.mdb")] has returned. *)
Definition survey_state : @State sample_lib :=
  snd (construct sample_system_tables "survey.mdb" (boot survey_world)).

(** The survey later: [table1] still reads, the reads of [table2] and of
    [table3] fail, each in its own way. *)
Definition worn_query (sql : string) : res (@DataFrame sample_lib) :=
  if decide (sql = "SELECT * FROM [table1]") then Ok table1
  else if decide (sql = "SELECT * FROM [table2]")
       then Raise (DatabaseError "table2 is corrupt")
  else Raise (DatabaseError "table3 is locked").

Definition worn_state : @State sample_lib :=
  {| self := self survey_state;
     world :=
       {| odbc := <[conn_string "survey.mdb" :=
                      {| catalog := Ok survey_catalog;
                         run_query := worn_query |}]>
                    (odbc (world survey_state));
          fs := fs (world survey_state);
          memdb := memdb (world survey_state);
          stdout := stdout (world survey_state) |} |}.

(** * Properties *)

Section Properties.
Context {lib : Tabular}.
Variable SYSTEM_TABLES : list string.

Local Abbreviation Prog := (M State).

(** ** Frame rules of the monad *)

Lemma preserves_ret {X A} (f : State → X) (a : A) : preserves f (ret a).
Proof. intros st. reflexivity. Qed.

Lemma preserves_raise {X A} (f : State → X) (e : exn) :
  preserves f (raise e : Prog A).
Proof. intros st. reflexivity. Qed.

Lemma preserves_bind {X A B} (f : State → X) (m : Prog A) (k : A → Prog B) :
  preserves f m → (∀ a, preserves f (k a)) → preserves f (x <- m ;; k x).
Proof.
  intros Hm Hk st. unfold bind. specialize (Hm st).
  destruct (m st) as [[a|e] st']; simpl in *.
  - rewrite Hk. exact Hm.
  - exact Hm.
Qed.

Lemma preserves_try_except {X A} (f : State → X) (m : Prog A) (h : exn → Prog A) :
  preserves f m → (∀ e, preserves f (h e)) → preserves f (try_except m h).
Proof.
  intros Hm Hh st. unfold try_except. specialize (Hm st).
  destruct (m st) as [[a|e] st']; simpl in *.
  - exact Hm.
  - rewrite Hh. exact Hm.
Qed.

Lemma preserves_try_finally {X A} (f : State → X) (m : Prog A) (c : Prog unit) :
  preserves f m → preserves f c → preserves f (try_finally m c).
Proof.
  intros Hm Hc st. unfold try_finally. specialize (Hm st).
  destruct (m st) as [r st']. specialize (Hc st').
  destruct (c st') as [[u|e] st'']; simpl in *; congruence.
Qed.

Lemma preserves_for_each {X A} (f : State → X) (l : list A) (body : A → Prog unit) :
  (∀ a, preserves f (body a)) → preserves f (for_each l body).
Proof.
  intros Hb. induction l as [|a l IH]; simpl.
  - apply preserves_ret.
  - apply preserves_bind; auto.
Qed.

Lemma preserves_comprehension_if {X A} (f : State → X) (l : list A)
    (cond : A → Prog bool) :
  (∀ a, preserves f (cond a)) → preserves f (comprehension_if l cond).
Proof.
  intros Hc. induction l as [|a l IH]; simpl.
  - apply preserves_ret.
  - apply preserves_bind; [apply Hc|]. intros b.
    apply preserves_bind; [apply IH|]. intros r. apply preserves_ret.
Qed.

Lemma preserves_getattr {X A} (f : State → X) (proj : GintDatabase → option A)
    (name : string) :
  preserves f (getattr proj name).
Proof. intros st. unfold getattr. destruct (proj (self st)); reflexivity. Qed.

Lemma preserves_get_world {X} (f : State → X) : preserves f get_world.
Proof. intros st. reflexivity. Qed.

Lemma preserves_self_put_world (w : World) : preserves self (put_world w).
Proof. intros st. reflexivity. Qed.

Lemma preserves_id_pair {X Y A} (f : State → X) (g : State → Y) (m : Prog A) :
  preserves f m → preserves g m → preserves (λ st, (f st, g st)) m.
Proof. intros Hf Hg st. simpl. rewrite Hf, Hg. reflexivity. Qed.

Create HintDb prog.
Create HintDb monad.

#[local] Hint Unfold print pyodbc_connect cnxn_cursor cursor_tables
  pd_read_sql os_path_exists os_makedirs write_text DataFrame_to_csv
  create_engine engine_connect conn_close DataFrame_to_sql setattr getattr
  put_world get_world : prog.
#[local] Hint Unfold bind ret raise : monad.

(** A primitive is run on an arbitrary state and every case is looked at. *)
Ltac frame_prim :=
  let st := fresh "st" in
  intros st; repeat autounfold with prog; repeat autounfold with monad;
  simpl; repeat case_match; simpl; reflexivity.

(** ** Reading the source *)

Lemma pd_read_sql_run (sql c : string) (st : State) :
  pd_read_sql sql c st =
  (match odbc (world st) !! c with
   | Some src => run_query src sql
   | None => Raise (PyodbcError "the connection is closed")
   end, st).
Proof.
  unfold pd_read_sql, bind, get_world. simpl.
  destruct (odbc (world st) !! c) as [src|]; [|reflexivity].
  destruct (run_query src sql); reflexivity.
Qed.

Lemma get_table_run (table : string) (st : State) :
  get_table table st = (read_table st table, st).
Proof.
  unfold get_table, read_table, bind, getattr.
  destruct (cnxn (self st)) as [c|]; [|reflexivity].
  apply pd_read_sql_run.
Qed.

Lemma table_length_run (table : string) (st : State) :
  table_length table st = (res_map len (read_table st table), st).
Proof.
  unfold table_length, read_table, bind, getattr.
  destruct (cnxn (self st)) as [c|]; [|reflexivity].
  rewrite pd_read_sql_run.
  destruct (odbc (world st) !! c) as [src|]; [|reflexivity].
  destruct (run_query src (select_all table)); reflexivity.
Qed.

Lemma preserves_get_table {X} (f : State → X) (table : string) :
  preserves f (get_table table).
Proof. intros st. rewrite get_table_run. reflexivity. Qed.

Lemma preserves_table_length {X} (f : State → X) (table : string) :
  preserves f (table_length table).
Proof. intros st. rewrite table_length_run. reflexivity. Qed.

(** [read_table] looks at the connection attribute and at the sources
    only. *)
Lemma read_table_ext (st st' : State) (table : string) :
  cnxn (self st') = cnxn (self st) →
  odbc (world st') = odbc (world st) →
  read_table st' table = read_table st table.
Proof. intros Hc Ho. unfold read_table. rewrite Hc, Ho. reflexivity. Qed.

(** C8. [table_length(name)] is the length of the list of rows of the frame
    that [get_table(name)] returns in the same state (and raises what it
    raises); neither call keeps anything: the state is left as it was, and
    the answer is the one the source gives at the time of the call. *)
Theorem table_length_counts_get_table (table : string) (st : State) :
  fst (table_length table st) =
    res_map (λ df, length (rows df)) (fst (get_table table st)) ∧
  snd (table_length table st) = st ∧
  snd (get_table table st) = st ∧
  fst (get_table table st) = read_table st table.
Proof.
  rewrite table_length_run, get_table_run. simpl.
  destruct (read_table st table); auto.
Qed.

(** ** Construction *)

Lemma has_rows_run (table : string) (st : State) :
  has_rows table st =
  (res_map (λ df, bool_decide (0 < len df)) (read_table st table), st).
Proof.
  unfold has_rows, bind. rewrite table_length_run.
  destruct (read_table st table); reflexivity.
Qed.

Lemma comprehension_has_rows_state (l : list string) (st : State) :
  snd (comprehension_if l has_rows st) = st.
Proof.
  apply (preserves_comprehension_if (λ st, st)).
  intros a st'. rewrite has_rows_run. reflexivity.
Qed.

Lemma comprehension_has_rows_ok (l r : list string) (st : State) :
  fst (comprehension_if l has_rows st) = Ok r →
  sublist r l ∧
  ∀ t, t ∈ r ↔ t ∈ l ∧ ∃ df, read_table st t = Ok df ∧ 0 < len df.
Proof.
  revert r. induction l as [|a l IH]; intros r; simpl.
  - intros [= <-]. split; [constructor|]. intros t.
    split; [intros []%elem_of_nil | intros [[]%elem_of_nil _]].
  - unfold bind at 1. rewrite has_rows_run.
    destruct (read_table st a) as [df|e] eqn:Ha; simpl; [|discriminate].
    unfold bind at 1.
    pose proof (comprehension_has_rows_state l st) as Hst.
    destruct (comprehension_if l has_rows st) as [[r'|e] st'] eqn:Hl;
      simpl in *; [|discriminate].
    subst st'. destruct (IH r' eq_refl) as [Hsub Hmem].
    intros [= <-]. case_bool_decide as Hn.
    + split; [by constructor|]. intros t. rewrite !elem_of_cons, Hmem.
      split.
      * intros [->|[? ?]]; [|by auto]. eauto.
      * intros [[->|?] ?]; auto.
    + split; [by constructor|]. intros t. rewrite elem_of_cons, Hmem.
      split.
      * intros [? ?]; auto.
      * intros [[->|?] (df' & Hdf & ?)]; [|by eauto].
        rewrite Ha in Hdf. injection Hdf as <-. lia.
Qed.

(** The outcome of the constructor when the connection opens and the
    enumeration yields [rs]: [table_names] is assigned, then either the
    second comprehension completes and [non_empty_tables] is assigned, or an
    exception of a read is caught and printed. *)
Lemma construct_enumerated (path_arg : string) (st : State) (src : Source)
    (rs : list Row) :
  odbc (world st) !! conn_string path_arg = Some src →
  catalog src = Ok rs →
  let o := set_table_names (user_table_names SYSTEM_TABLES rs) (connected path_arg) in
  let st1 := {| self := o; world := world st |} in
  construct SYSTEM_TABLES path_arg st =
  match fst (comprehension_if (user_table_names SYSTEM_TABLES rs) has_rows st1) with
  | Ok ne => (Ok tt, {| self := set_non_empty_tables ne o; world := world st |})
  | Raise e =>
      (Ok tt, {| self := o;
                 world := set_stdout
                   (stdout (world st) ++
                      ["Failed to load database with " +:+ exn_str e])
                   (world st) |})
  end.
Proof.
  intros Hsrc Hcat o st1.
  pose proof (comprehension_has_rows_state (user_table_names SYSTEM_TABLES rs) st1) as Hst.
  unfold construct, __init__, pyodbc_connect, cnxn_cursor, cursor_tables,
    print, try_except, setattr, getattr, put_world, get_world, bind, ret,
    raise; simpl.
  rewrite Hsrc; simpl. rewrite Hsrc, Hcat; simpl.
  change (comprehension_if (user_table_names SYSTEM_TABLES rs) _ _)
    with (comprehension_if (user_table_names SYSTEM_TABLES rs) has_rows st1).
  destruct (comprehension_if _ has_rows st1) as [[ne|e] st'] eqn:Hl;
    simpl in *; subst st'; reflexivity.
Qed.

(** The comprehension over the rows of the catalog is a filter of their
    names. *)
Lemma user_table_names_filter (rs : list Row) :
  user_table_names SYSTEM_TABLES rs =
  filter (λ n, n ∉ SYSTEM_TABLES) (table_name <$> rs).
Proof.
  induction rs as [|row rs IH]; simpl; [reflexivity|].
  rewrite filter_cons. case_bool_decide; case_decide; try tauto;
    rewrite IH; reflexivity.
Qed.

(** C3. When the connection opens and the driver's enumeration yields its
    rows, the constructor returns and [table_names] holds the enumerated
    names without those of [SYSTEM_TABLES]: the same members, in the order
    of the enumeration. *)
Theorem table_names_is_filtered_enumeration (path_arg : string) (st : State)
    (src : Source) (rs : list Row) :
  odbc (world st) !! conn_string path_arg = Some src →
  catalog src = Ok rs →
  let names := table_name <$> rs in
  let st' := snd (construct SYSTEM_TABLES path_arg st) in
  fst (construct SYSTEM_TABLES path_arg st) = Ok tt ∧
  ∃ l, table_names (self st') = Some l ∧
       l = filter (λ n, n ∉ SYSTEM_TABLES) names ∧
       (∀ n, n ∈ l ↔ n ∈ names ∧ n ∉ SYSTEM_TABLES) ∧
       sublist l names.
Proof.
  intros Hsrc Hcat names st'. subst st'.
  rewrite (construct_enumerated _ _ _ _ Hsrc Hcat).
  assert (∃ l, l = filter (λ n, n ∉ SYSTEM_TABLES) names ∧
               user_table_names SYSTEM_TABLES rs = l) as (l & Hl & Hu).
  { eexists; split; [reflexivity|]. apply user_table_names_filter. }
  destruct (fst (comprehension_if _ has_rows _)) as [ne|e]; simpl;
    (split; [reflexivity|]); exists l; rewrite Hu;
    (split; [reflexivity|]); (split; [exact Hl|]); subst l;
    (split; [intros n; rewrite list_elem_of_filter; tauto|]);
    apply sublist_filter.
Qed.

(** ** What the operations leave alone *)

Ltac frame :=
  repeat first
    [ apply preserves_get_table
    | apply preserves_table_length
    | frame_prim
    | apply preserves_bind; [|intros ?]
    | apply preserves_try_except; [|intros ?]
    | apply preserves_try_finally
    | apply preserves_for_each; intros ?
    | apply preserves_comprehension_if; intros ?
    | match goal with
      | |- preserves _ (if ?b then _ else _) => destruct b
      end ].

Lemma check_dir_source (dir_path : string) :
  preserves source_view (check_dir dir_path).
Proof. unfold check_dir. frame. Qed.


Lemma dfs_loop_state (tables : list string) (d : list (string * DataFrame)) :
  preserves (λ st, st) (dfs_loop tables d).
Proof.
  revert d. induction tables as [|t tables IH]; intros d; simpl.
  - apply preserves_ret.
  - apply preserves_bind; [apply preserves_get_table|]. intros df. apply IH.
Qed.

Lemma dfs_state : preserves (λ st, st) dfs.
Proof.
  unfold dfs. apply preserves_bind; [frame|]. intros l. apply dfs_loop_state.
Qed.






(** The outcome of the constructor when the connection opens and the
    enumeration raises: the exception is caught and printed, and neither
    [table_names] nor [non_empty_tables] is assigned. *)
Lemma construct_enumeration_raises (path_arg : string) (st : State)
    (src : Source) (e : exn) :
  odbc (world st) !! conn_string path_arg = Some src →
  catalog src = Raise e →
  construct SYSTEM_TABLES path_arg st =
  (Ok tt, {| self := connected path_arg;
             world := set_stdout
               (stdout (world st) ++
                  ["Failed to load database with " +:+ exn_str e])
               (world st) |}).
Proof.
  intros Hsrc Hcat.
  unfold construct, __init__, pyodbc_connect, cnxn_cursor, cursor_tables,
    print, try_except, setattr, getattr, put_world, get_world, bind, ret,
    raise; simpl.
  rewrite Hsrc; simpl. rewrite Hsrc, Hcat; simpl. reflexivity.
Qed.


(** ** The file system *)

Lemma lookup_path_insert_ne (f : gmap path node) (p q : path) (n : node) :
  q ≠ p → lookup_path (<[p := n]> f) q = lookup_path f q.
Proof.
  intros Hne. unfold lookup_path.
  case_decide; [reflexivity|]. by rewrite lookup_insert_ne.
Qed.

Lemma lookup_path_insert_dir (f : gmap path node) (p : path) :
  lookup_path (<[p := NDir]> f) p = Some NDir.
Proof.
  unfold lookup_path. case_decide; [reflexivity|]. by rewrite lookup_insert_eq.
Qed.

(** A path that is not known to be a directory is looked up in the map. *)
Lemma lookup_path_raw (f f' : gmap path node) (p : path) :
  lookup_path f p ≠ Some NDir → lookup_path f' p = f' !! p.
Proof.
  unfold lookup_path. repeat case_decide; try reflexivity; congruence.
Qed.

Lemma lookup_path_None (f : gmap path node) (p : path) :
  lookup_path f p = None → f !! p = None.
Proof.
  intros H. rewrite <- (lookup_path_raw f f p); [exact H|]. congruence.
Qed.

Lemma prefixes_from_length (pre p q : path) :
  q ∈ prefixes_from pre p → length pre < length q.
Proof.
  revert pre. induction p as [|c p IH]; intros pre; simpl.
  - intros []%elem_of_nil.
  - intros [->|Hq]%elem_of_cons.
    + rewrite length_app. simpl. lia.
    + apply IH in Hq. rewrite length_app in Hq. simpl in Hq. lia.
Qed.

Lemma prefixes_from_NoDup (pre p : path) : NoDup (prefixes_from pre p).
Proof.
  revert pre. induction p as [|c p IH]; intros pre; simpl; constructor.
  - intros Hin%prefixes_from_length. lia.
  - apply IH.
Qed.

Lemma prefixes_from_last (pre p : path) :
  p ≠ [] → last (prefixes_from pre p) = Some (pre ++ p).
Proof.
  revert pre. induction p as [|c p IH]; intros pre Hne; [done|]. simpl.
  destruct p as [|c' p].
  - reflexivity.
  - rewrite last_cons. rewrite IH by done.
    by rewrite <- app_assoc.
Qed.

Lemma prefixes_self (p : path) : p ≠ [] → p ∈ prefixes p.
Proof.
  intros Hne. pose proof (prefixes_from_last [] p Hne) as Hl.
  apply last_Some in Hl as [l' Hl]. unfold prefixes. rewrite Hl.
  apply elem_of_app. right. by apply list_elem_of_singleton.
Qed.

(** [os.makedirs]: paths outside the list are not touched, nodes that exist
    stay, and on success every path of the list is a directory. *)
Lemma makedirs_go_spec (raw : string) (ps : list path) (f f' : gmap path node)
    (r : res unit) :
  makedirs_go raw f ps = (r, f') →
  (∀ q, q ∉ ps → f' !! q = f !! q) ∧
  (∀ q n, lookup_path f q = Some n → lookup_path f' q = Some n) ∧
  (r = Ok tt → ∀ q, q ∈ ps → lookup_path f' q = Some NDir).
Proof.
  revert f. induction ps as [|p ps IH]; intros f; simpl.
  - intros [= <- <-]. repeat split; auto. discriminate.
  - destruct ps as [|p2 ps].
    + destruct (lookup_path f p) as [n|] eqn:Hp.
      * intros [= <- <-]. repeat split; auto. discriminate.
      * intros [= <- <-]. repeat split.
        -- intros q Hq. apply lookup_insert_ne. intros ->.
           apply Hq. by apply list_elem_of_singleton.
        -- intros q n Hq. rewrite lookup_path_insert_ne; [done|].
           intros ->. congruence.
        -- intros _ q ->%list_elem_of_singleton. apply lookup_path_insert_dir.
    + destruct (lookup_path f p) as [[| |]|] eqn:Hp.
      * intros Hgo. destruct (IH _ Hgo) as (Hframe & Hkeep & Hok).
        repeat split.
        -- intros q Hq. apply Hframe. intros Hin. apply Hq. by right.
        -- exact Hkeep.
        -- intros Hr q [->|Hq]%elem_of_cons; [|by apply Hok].
           by apply Hkeep.
      * intros [= <- <-]. repeat split; auto. discriminate.
      * intros [= <- <-]. repeat split; auto. discriminate.
      * intros Hgo. destruct (IH _ Hgo) as (Hframe & Hkeep & Hok).
        repeat split.
        -- intros q Hq. rewrite Hframe.
           ++ apply lookup_insert_ne. intros ->. apply Hq. by left.
           ++ intros Hin. apply Hq. by right.
        -- intros q n Hq. apply Hkeep. rewrite lookup_path_insert_ne; [done|].
           intros ->. congruence.
        -- intros Hr q [->|Hq]%elem_of_cons; [|by apply Hok].
           apply Hkeep, lookup_path_insert_dir.
Qed.

(** [os.makedirs] succeeds when the leaf is free and no ancestor is a
    regular file. *)
Lemma makedirs_go_ok (raw : string) (ps : list path) (f : gmap path node) :
  NoDup ps →
  (∀ q, q ∈ ps → is_dir_or_free (lookup_path f q) = true) →
  (∃ p, last ps = Some p ∧ lookup_path f p = None) →
  fst (makedirs_go raw f ps) = Ok tt.
Proof.
  revert f. induction ps as [|p ps IH]; intros f Hnd Hfree (pl & Hlast & Hnone).
  - discriminate.
  - simpl. destruct ps as [|p2 ps].
    + simpl in Hlast. injection Hlast as ->. rewrite Hnone. reflexivity.
    + apply NoDup_cons in Hnd as [Hnotin Hnd].
      rewrite last_cons in Hlast.
      destruct (last (p2 :: ps)) as [pl'|] eqn:Hl;
        [|by apply last_None in Hl].
      injection Hlast as ->.
      assert (pl ≠ p) as Hne.
      { intros ->. apply Hnotin. apply last_Some in Hl as [l' ->].
        apply elem_of_app. right. by apply list_elem_of_singleton. }
      pose proof (Hfree p (list_elem_of_here _ _)) as Hp.
      destruct (lookup_path f p) as [[| |]|] eqn:Hlp; try discriminate.
      * apply IH; [done| |eauto]. intros q Hq. apply Hfree. by right.
      * apply IH; [done| |].
        -- intros q Hq. rewrite lookup_path_insert_ne.
           ++ apply Hfree. by right.
           ++ intros ->. contradiction.
        -- exists pl. split; [done|]. by rewrite lookup_path_insert_ne.
Qed.

Lemma os_makedirs_run (p : string) (st : State) :
  os_makedirs p st =
  (fst (makedirs_go p (fs (world st)) (prefixes (parse_path p))),
   {| self := self st;
      world := set_fs (snd (makedirs_go p (fs (world st))
                              (prefixes (parse_path p)))) (world st) |}).
Proof.
  unfold os_makedirs, bind, get_world, put_world, ret, raise. simpl.
  destruct (makedirs_go _ _ _) as [[[]|e] f]; reflexivity.
Qed.

Lemma check_dir_run (dir_path : string) (st : State) :
  check_dir dir_path st =
  if path_exists (world st) dir_path then (Ok tt, st)
  else os_makedirs dir_path st.
Proof.
  unfold check_dir, bind, os_path_exists, get_world, ret. simpl.
  fold (path_exists (world st) dir_path).
  destruct (path_exists (world st) dir_path); reflexivity.
Qed.

Lemma path_exists_false (w : World) (p : string) :
  p ≠ "" → path_exists w p = false →
  lookup_path (fs w) (parse_path p) = None ∧ parse_path p ≠ [].
Proof.
  intros Hp. unfold path_exists. case_decide; [done|].
  intros Hex%bool_decide_eq_false.
  destruct (lookup_path (fs w) (parse_path p)) as [n|] eqn:Hl.
  - exfalso. apply Hex. eauto.
  - split; [reflexivity|]. intros Hnil. rewrite Hnil in Hl.
    unfold lookup_path in Hl. case_decide; [discriminate|]. tauto.
Qed.

Lemma lookup_path_nil (f : gmap path node) : lookup_path f [] = Some NDir.
Proof. unfold lookup_path. case_decide; [reflexivity|]. tauto. Qed.

(** [check_dir]: only the file system can change, and only at the directory
    and its ancestors; what exists stays; on success the directory exists,
    and if it had to be made, it and all its ancestors are directories; it
    succeeds when nothing on the way is a regular file. *)
Lemma check_dir_spec (dir_path : string) (st : State) :
  let r := fst (check_dir dir_path st) in
  let st' := snd (check_dir dir_path st) in
  (∃ f', st' = {| self := self st; world := set_fs f' (world st) |}) ∧
  (∀ q, q ∉ prefixes (parse_path dir_path) →
        fs (world st') !! q = fs (world st) !! q) ∧
  (∀ q n, lookup_path (fs (world st)) q = Some n →
          lookup_path (fs (world st')) q = Some n) ∧
  (r = Ok tt →
   path_exists (world st') dir_path = true ∧
   (path_exists (world st) dir_path = false →
    ∀ q, q ∈ prefixes (parse_path dir_path) →
         lookup_path (fs (world st')) q = Some NDir)) ∧
  (dir_path ≠ "" →
   (∀ q, q ∈ prefixes (parse_path dir_path) →
         is_dir_or_free (lookup_path (fs (world st)) q) = true) →
   r = Ok tt ∧ lookup_path (fs (world st')) (parse_path dir_path) = Some NDir).
Proof.
  intros r st'. subst r st'. rewrite check_dir_run.
  destruct (path_exists (world st) dir_path) eqn:Hex.
  - simpl. split; [|split; [|split; [|split]]].
    + exists (fs (world st)). by destruct st as [o []].
    + auto.
    + auto.
    + intros _. split; [done|]. intros; discriminate.
    + intros Hne Hfree. split; [reflexivity|].
      unfold path_exists in Hex. case_decide; [done|].
      apply bool_decide_eq_true in Hex as [n Hn].
      destruct (decide (parse_path dir_path = [])) as [Hnil|Hnil].
      * rewrite Hnil. apply lookup_path_nil.
      * specialize (Hfree _ (prefixes_self _ Hnil)). rewrite Hn in Hfree |- *.
        destruct n; [reflexivity|discriminate..].
  - rewrite os_makedirs_run. simpl.
    destruct (makedirs_go dir_path (fs (world st))
                (prefixes (parse_path dir_path))) as [r f'] eqn:Hgo.
    destruct (makedirs_go_spec _ _ _ _ _ Hgo) as (Hframe & Hkeep & Hok).
    simpl.
    assert (r = Ok tt → dir_path ≠ "") as Hnonempty.
    { intros -> ->. vm_compute in Hgo. discriminate. }
    assert (r = Ok tt → lookup_path f' (parse_path dir_path) = Some NDir) as Hdir.
    { intros Hr. destruct (decide (parse_path dir_path = [])) as [Hnil|Hnil].
      - rewrite Hnil. apply lookup_path_nil.
      - apply Hok; [done|]. by apply prefixes_self. }
    split; [|split; [|split; [|split]]].
    + eauto.
    + exact Hframe.
    + exact Hkeep.
    + intros Hr. split; [|auto].
      unfold path_exists. simpl. case_decide; [by apply Hnonempty in Hr|].
      apply bool_decide_eq_true. rewrite Hdir by done. eauto.
    + intros Hne Hfree.
      destruct (path_exists_false _ _ Hne Hex) as [Hnone Hnil].
      assert (r = Ok tt) as Hr.
      { change r with (fst (r, f')). rewrite <- Hgo.
        apply makedirs_go_ok; [apply prefixes_from_NoDup|done|].
        exists (parse_path dir_path). split; [|done].
        by apply (prefixes_from_last []). }
      auto.
Qed.

Lemma write_text_run (p text : string) (st : State) :
  write_text p text st =
  match lookup_path (fs (world st)) (parse_path p) with
  | Some NDir => (Raise (IsADirectoryError p), st)
  | _ =>
      match lookup_path (fs (world st)) (parent (parse_path p)) with
      | Some NDir =>
          (Ok tt, {| self := self st;
                     world := set_fs (<[parse_path p := NFile text]>
                                        (fs (world st))) (world st) |})
      | Some _ => (Raise (NotADirectoryError p), st)
      | None => (Raise (FileNotFoundError p), st)
      end
  end.
Proof.
  unfold write_text, bind, get_world, put_world, raise. simpl.
  repeat case_match; reflexivity.
Qed.

(** [write_table_to_csv] step by step. *)
Lemma write_table_to_csv_run (table directory : string) (st : State) :
  write_table_to_csv table directory st =
  match check_dir directory st with
  | (Ok _, st1) =>
      match read_table st table with
      | Ok df =>
          write_text (os_path_join directory (table +:+ ".csv"))
            (to_csv_text df false) st1
      | Raise e => (Raise e, st1)
      end
  | (Raise e, st1) => (Raise e, st1)
  end.
Proof.
  unfold write_table_to_csv, bind.
  pose proof (check_dir_source directory st) as Hsrc.
  destruct (check_dir directory st) as [[[]|e] st1]; [|reflexivity].
  rewrite get_table_run. simpl in Hsrc.
  rewrite (read_table_ext st st1 table) by (unfold source_view in Hsrc; congruence).
  destruct (read_table st1 table); reflexivity.
Qed.











(** ** The SQLite destination *)

Lemma DataFrame_to_sql_replace_run (df : DataFrame) (name : string)
    (c : sqlite_conn) (st : State) :
  DataFrame_to_sql df name c IfReplace false st =
  match conn_tables (world st) c with
  | None => (Raise (DatabaseError "file is not a database"), st)
  | Some db =>
      (Ok tt, {| self := self st;
                 world := set_conn_tables c (<[name := df]> db) (world st) |})
  end.
Proof.
  unfold DataFrame_to_sql, bind, get_world, put_world, raise. simpl.
  destruct (conn_tables (world st) c) as [db|]; [|reflexivity].
  destruct (db !! name); reflexivity.
Qed.

Lemma write_table_to_sqlite_run (table : string) (c : sqlite_conn) (st : State) :
  write_table_to_sqlite table c st =
  match read_table st table with
  | Ok df => DataFrame_to_sql df table c IfReplace false st
  | Raise e => (Raise e, st)
  end.
Proof.
  unfold write_table_to_sqlite, bind. rewrite get_table_run.
  destruct (read_table st table); reflexivity.
Qed.










(** ** The set of non-empty tables *)






(** ** [dfs] *)

Lemma dict_set_keys {V} (k : string) (v : V) (d : list (string * V)) :
  (dict_set k v d).*1 = if decide (k ∈ d.*1) then d.*1 else d.*1 ++ [k].
Proof.
  induction d as [|[k' v'] d IH].
  - reflexivity.
  - cbn [dict_set]. rewrite !fmap_cons. cbn [fst].
    destruct (decide (k' = k)) as [->|Hne].
    + rewrite decide_True by left. reflexivity.
    + rewrite fmap_cons, IH. cbn [fst].
      destruct (decide (k ∈ d.*1)) as [Hin|Hin].
      * rewrite decide_True by (by right). reflexivity.
      * rewrite decide_False; [reflexivity|].
        intros [?|?]%elem_of_cons; congruence.
Qed.

Lemma dict_get_set {V} (k k' : string) (v : V) (d : list (string * V)) :
  dict_get k' (dict_set k v d) = if decide (k = k') then Some v else dict_get k' d.
Proof.
  induction d as [|[k0 v0] d IH]; simpl.
  - repeat case_decide; congruence.
  - destruct (decide (k0 = k)) as [->|Hne]; simpl.
    + repeat case_decide; congruence.
    + rewrite IH. repeat case_decide; congruence.
Qed.

Lemma dict_get_keys {V} (k : string) (d : list (string * V)) :
  is_Some (dict_get k d) ↔ k ∈ d.*1.
Proof.
  induction d as [|[k0 v0] d IH].
  - split; [intros [? [=]]|intros []%elem_of_nil].
  - cbn [dict_get]. rewrite fmap_cons, elem_of_cons. cbn [fst].
    case_decide as Hk.
    + split; [auto|eauto].
    + rewrite IH. split; [auto|]. intros [->|?]; [done|auto].
Qed.

Lemma first_occurrences_elem (l : list string) (x : string) :
  x ∈ first_occurrences l ↔ x ∈ l.
Proof.
  induction l as [|a l IH]; simpl; [reflexivity|].
  rewrite !elem_of_cons, list_elem_of_filter, IH.
  destruct (decide (x = a)); tauto.
Qed.

Lemma first_occurrences_NoDup (l : list string) :
  NoDup l → first_occurrences l = l.
Proof.
  induction 1 as [|a l Hnotin Hnd IH]; simpl; [reflexivity|].
  rewrite IH. f_equal. clear IH Hnd.
  induction l as [|b l IHl]; [reflexivity|].
  apply not_elem_of_cons in Hnotin as [Hab Hnotin].
  rewrite filter_cons_True by congruence. f_equal. auto.
Qed.

Lemma filter_not_in_nil (xs : list string) :
  filter (λ k, k ∉ ([] : list string)) xs = xs.
Proof.
  induction xs as [|x xs IH]; [reflexivity|].
  rewrite filter_cons_True by apply not_elem_of_nil. by rewrite IH.
Qed.

(** The loop of [dfs], all reads succeeding: the keys already present keep
    their place, the new ones follow in the order of their first occurrence,
    and each table of the list is bound to the frame read for it. *)
Lemma dfs_loop_spec (tables : list string) (d : list (string * DataFrame))
    (st : State) :
  (∀ t, t ∈ tables → is_ok (read_table st t) = true) →
  ∃ d', dfs_loop tables d st = (Ok d', st) ∧
        d'.*1 = d.*1 ++ filter (λ k, k ∉ d.*1) (first_occurrences tables) ∧
        ∀ k, dict_get k d' =
             if decide (k ∈ tables)
             then match read_table st k with Ok df => Some df | Raise _ => None end
             else dict_get k d.
Proof.
  revert d. induction tables as [|t tables IH]; intros d Hok;
    cbn [dfs_loop first_occurrences].
  - exists d. split; [reflexivity|]. split.
    + by rewrite filter_nil, app_nil_r.
    + intros k. rewrite decide_False by apply not_elem_of_nil. reflexivity.
  - unfold bind. rewrite get_table_run.
    pose proof (Hok t (list_elem_of_here _ _)) as Ht.
    destruct (read_table st t) as [df|e] eqn:Hread; [|discriminate].
    destruct (IH (dict_set t df d)) as (d' & Hrun & Hkeys & Hget).
    { intros t' Ht'. apply Hok. by right. }
    exists d'. split; [exact Hrun|]. split.
    + rewrite Hkeys, dict_set_keys. destruct (decide (t ∈ d.*1)) as [Hin|Hin].
      * rewrite filter_cons_False by auto. rewrite list_filter_filter.
        f_equal. apply list_filter_iff. intros x. split; [|tauto].
        intros Hx. split; [done|]. by intros ->.
      * rewrite filter_cons_True by done. rewrite <- app_assoc. simpl.
        do 2 f_equal. rewrite list_filter_filter.
        apply list_filter_iff. intros x.
        rewrite elem_of_app, list_elem_of_singleton. tauto.
    + intros k. rewrite Hget, dict_get_set.
      destruct (decide (t = k)) as [->|Hne].
      * rewrite (decide_True (P := k ∈ k :: tables)) by left.
        rewrite Hread. by case_decide.
      * destruct (decide (k ∈ tables)) as [Hin|Hin].
        -- by rewrite decide_True by (by right).
        -- rewrite decide_False; [reflexivity|].
           intros [?|?]%elem_of_cons; congruence.
Qed.

(** C10. [dfs()], every read succeeding, returns a dict whose keys are the
    names of [non_empty_tables], each once, in the order the list is
    iterated (the list itself when it has no repetition), and whose value
    under each name is the frame [get_table] returns for it at the time of
    the call; no other name is a key.  The state is left as it was. *)
Theorem dfs_is_the_dict_of_non_empty_tables (st : State) (l : list string) :
  non_empty_tables (self st) = Some l →
  (∀ t, t ∈ l → is_ok (fst (get_table t st)) = true) →
  ∃ d, dfs st = (Ok d, st) ∧
       d.*1 = first_occurrences l ∧
       (NoDup l → d.*1 = l) ∧
       (∀ k, k ∈ d.*1 ↔ k ∈ l) ∧
       (∀ k df, dict_get k d = Some df ↔
                k ∈ l ∧ fst (get_table k st) = Ok df).
Proof.
  intros Hl Hok.
  destruct (dfs_loop_spec l [] st) as (d & Hrun & Hkeys & Hget).
  { intros t Ht. specialize (Hok t Ht). by rewrite get_table_run in Hok. }
  assert (d.*1 = first_occurrences l) as Hkeys'.
  { rewrite Hkeys. rewrite fmap_nil, app_nil_l. apply filter_not_in_nil. }
  exists d. split.
  { unfold dfs, bind, getattr. rewrite Hl. exact Hrun. }
  split; [exact Hkeys'|]. split.
  { intros Hnd. by rewrite Hkeys', first_occurrences_NoDup. }
  split.
  { intros k. rewrite Hkeys'. apply first_occurrences_elem. }
  intros k df. rewrite Hget, get_table_run. simpl.
  destruct (decide (k ∈ l)) as [Hin|Hin].
  - destruct (read_table st k) as [df'|e]; split;
      try (intros [= ->]; done); try (intros [_ [= ->]]; done);
      try (intros [_ [=]]; done).
  - simpl. split; [discriminate|tauto].
Qed.

(** * Further properties *)

(** ** [check_dir] *)



Lemma check_dir_quiet (dir_path : string) :
  preserves quiet_view (check_dir dir_path).
Proof. unfold check_dir. frame. Qed.


(** X2. [check_dir] is idempotent: running it a second time changes
    nothing, and raises nothing when the first run returned. *)
Theorem check_dir_twice_is_once (dir_path : string) (st : State) :
  (check_dir dir_path ;; check_dir dir_path) st = check_dir dir_path st.
Proof.
  unfold bind.
  destruct (check_dir_spec dir_path st) as (_ & _ & _ & Hpost & _).
  destruct (check_dir dir_path st) as [[[]|e] st1]; [|reflexivity].
  simpl in Hpost. destruct (Hpost eq_refl) as [Hex _].
  rewrite check_dir_run, Hex. reflexivity.
Qed.


(** ** The constructor *)

Lemma construct_connection_fails (path_arg : string) (st : State) :
  odbc (world st) !! conn_string path_arg = None →
  construct SYSTEM_TABLES path_arg st =
  (Raise (PyodbcError "unable to open the database file"),
   {| self := set_file_path path_arg (set_connStr (conn_string path_arg) blank);
      world := world st |}).
Proof.
  intros Hnone.
  unfold construct, __init__, pyodbc_connect, setattr, getattr, get_world,
    bind, ret, raise; simpl. rewrite Hnone. reflexivity.
Qed.

(** X4. A connection that does not open is not caught: the constructor
    raises the driver's error after assigning [connStr] and [file_path]
    only, prints nothing, and the command, whatever its [--format], exits
    with status 1 and leaves the world exactly as it found it. *)
Theorem connection_failure_escapes (args : Args) (w : World) :
  odbc w !! conn_string (arg_file_path args) = None →
  construct SYSTEM_TABLES (arg_file_path args) (boot w) =
    (Raise (PyodbcError "unable to open the database file"),
     {| self := set_file_path (arg_file_path args)
                  (set_connStr (conn_string (arg_file_path args)) blank);
        world := w |}) ∧
  run_main SYSTEM_TABLES args w = (1, w).
Proof.
  intros Hnone.
  pose proof (construct_connection_fails (arg_file_path args) (boot w) Hnone)
    as Hc.
  split; [exact Hc|].
  unfold run_main, main, bind. rewrite Hc. reflexivity.
Qed.

(** The source's answer, seen from the object as the constructor has it
    during the second comprehension. *)
Lemma read_table_connected (path_arg : string) (o : GintDatabase) (w : World)
    (src : Source) (table : string) :
  cnxn o = Some (conn_string path_arg) →
  odbc w !! conn_string path_arg = Some src →
  read_table {| self := o; world := w |} table = run_query src (select_all table).
Proof. intros Hc Hsrc. unfold read_table. simpl. by rewrite Hc, Hsrc. Qed.

Lemma comprehension_has_rows_returns (l : list string) (st : State) :
  (∀ t, t ∈ l → is_ok (read_table st t) = true) →
  ∃ r, fst (comprehension_if l has_rows st) = Ok r.
Proof.
  induction l as [|a l IH]; intros Hok; simpl; [by eexists|].
  unfold bind at 1. rewrite has_rows_run.
  pose proof (Hok a (list_elem_of_here _ _)) as Ha.
  destruct (read_table st a) as [df|e]; [|discriminate]. simpl.
  unfold bind at 1.
  pose proof (comprehension_has_rows_state l st) as Hst.
  destruct IH as [r Hr]; [intros t Ht; apply Hok; by right|].
  destruct (comprehension_if l has_rows st) as [[r'|e] st']; simpl in *;
    [|discriminate].
  subst st'. by eexists.
Qed.

Lemma comprehension_has_rows_raises (l1 l2 : list string) (t : string)
    (e : exn) (st : State) :
  (∀ t', t' ∈ l1 → is_ok (read_table st t') = true) →
  read_table st t = Raise e →
  fst (comprehension_if (l1 ++ t :: l2) has_rows st) = Raise e.
Proof.
  intros Hok Ht. induction l1 as [|a l1 IH]; simpl.
  - unfold bind at 1. rewrite has_rows_run, Ht. reflexivity.
  - unfold bind at 1. rewrite has_rows_run.
    pose proof (Hok a (list_elem_of_here _ _)) as Ha.
    destruct (read_table st a) as [df|e']; [|discriminate]. simpl.
    unfold bind at 1.
    pose proof (comprehension_has_rows_state (l1 ++ t :: l2) st) as Hst.
    assert (fst (comprehension_if (l1 ++ t :: l2) has_rows st) = Raise e)
      as Hr by (apply IH; intros t' Ht'; apply Hok; by right).
    destruct (comprehension_if (l1 ++ t :: l2) has_rows st) as [r st'].
    simpl in *. by subst.
Qed.

(** X5. When the enumeration succeeds but the read of a table fails while
    the rows are counted, the constructor still returns: [table_names] is
    assigned, [non_empty_tables] is not, and the one line printed carries
    the exception of the first table, in enumeration order, whose read
    failed. *)
Theorem failed_count_leaves_non_empty_tables_unset (path_arg : string)
    (st : State) (src : Source) (rs : list Row) (l1 l2 : list string)
    (t : string) (e : exn) :
  odbc (world st) !! conn_string path_arg = Some src →
  catalog src = Ok rs →
  user_table_names SYSTEM_TABLES rs = l1 ++ t :: l2 →
  (∀ t', t' ∈ l1 → is_ok (run_query src (select_all t')) = true) →
  run_query src (select_all t) = Raise e →
  let r := construct SYSTEM_TABLES path_arg st in
  fst r = Ok tt ∧
  table_names (self (snd r)) = Some (l1 ++ t :: l2) ∧
  non_empty_tables (self (snd r)) = None ∧
  stdout (world (snd r)) =
    stdout (world st) ++ ["Failed to load database with " +:+ exn_str e].
Proof.
  intros Hsrc Hcat Hnames Hok Ht. simpl.
  rewrite (construct_enumerated _ _ _ _ Hsrc Hcat), Hnames.
  rewrite (comprehension_has_rows_raises l1 l2 t e).
  - repeat split.
  - intros t' Ht'. rewrite (read_table_connected path_arg _ _ src); auto.
  - by rewrite (read_table_connected path_arg _ _ src).
Qed.

(** X6. When the connection opens, the enumeration succeeds and every
    user table can be read, the constructor returns without printing and
    [non_empty_tables] holds exactly the names of [table_names] whose table
    has at least one row, in the same order. *)
Theorem non_empty_tables_are_the_tables_with_rows (path_arg : string)
    (st : State) (src : Source) (rs : list Row) :
  odbc (world st) !! conn_string path_arg = Some src →
  catalog src = Ok rs →
  (∀ t, t ∈ user_table_names SYSTEM_TABLES rs →
        is_ok (run_query src (select_all t)) = true) →
  let r := construct SYSTEM_TABLES path_arg st in
  fst r = Ok tt ∧
  world (snd r) = world st ∧
  table_names (self (snd r)) = Some (user_table_names SYSTEM_TABLES rs) ∧
  ∃ l, non_empty_tables (self (snd r)) = Some l ∧
       sublist l (user_table_names SYSTEM_TABLES rs) ∧
       ∀ t, t ∈ l ↔
            t ∈ user_table_names SYSTEM_TABLES rs ∧
            ∃ df, run_query src (select_all t) = Ok df ∧ 0 < len df.
Proof.
  intros Hsrc Hcat Hok. simpl.
  rewrite (construct_enumerated _ _ _ _ Hsrc Hcat).
  set (st1 := {| self := set_table_names (user_table_names SYSTEM_TABLES rs)
                           (connected path_arg);
                 world := world st |}).
  assert (∀ t, read_table st1 t = run_query src (select_all t)) as Hread.
  { intros t. by apply (read_table_connected path_arg). }
  destruct (comprehension_has_rows_returns
              (user_table_names SYSTEM_TABLES rs) st1) as [l Hl].
  { intros t Ht. rewrite Hread. by apply Hok. }
  rewrite Hl. simpl. repeat split.
  exists l. split; [reflexivity|].
  destruct (comprehension_has_rows_ok _ _ _ Hl) as [Hsub Hmem].
  split; [exact Hsub|]. intros t. rewrite Hmem.
  by setoid_rewrite Hread.
Qed.

(** X7. The constructor prints at most one line, and only the line of a
    caught exception. *)
Theorem construct_prints_at_most_one_line (path_arg : string) (st : State) :
  let out := stdout (world (snd (construct SYSTEM_TABLES path_arg st))) in
  out = stdout (world st) ∨
  ∃ e, out = stdout (world st) ++
               ["Failed to load database with " +:+ exn_str e].
Proof.
  simpl. destruct (odbc (world st) !! conn_string path_arg) as [src|] eqn:Hsrc.
  - destruct (catalog src) as [rs|e] eqn:Hcat.
    + rewrite (construct_enumerated _ _ _ _ Hsrc Hcat).
      destruct (fst (comprehension_if _ _ _)) as [ne|e]; simpl; eauto.
    + rewrite (construct_enumeration_raises _ _ _ _ Hsrc Hcat). simpl. eauto.
  - rewrite (construct_connection_fails _ _ Hsrc). by left.
Qed.

(** ** Failures of [dfs] and of the exports *)

Lemma dfs_loop_raises (l1 l2 : list string) (t : string) (e : exn)
    (d : list (string * DataFrame)) (st : State) :
  (∀ t', t' ∈ l1 → is_ok (read_table st t') = true) →
  read_table st t = Raise e →
  dfs_loop (l1 ++ t :: l2) d st = (Raise e, st).
Proof.
  intros Hok Ht. revert d. induction l1 as [|a l1 IH]; intros d;
    cbn [app dfs_loop]; unfold bind; rewrite get_table_run.
  - by rewrite Ht.
  - pose proof (Hok a (list_elem_of_here _ _)) as Ha.
    destruct (read_table st a) as [df|e']; [|discriminate].
    apply IH. intros t' Ht'. apply Hok. by right.
Qed.

(** X8. [dfs()] returns no partial dict: when the read of a table of
    [non_empty_tables] fails, it raises the exception of the first such
    table in the order of the list, and the state is left as it was. *)
Theorem dfs_raises_the_first_failure (st : State) (l1 l2 : list string)
    (t : string) (e : exn) :
  non_empty_tables (self st) = Some (l1 ++ t :: l2) →
  (∀ t', t' ∈ l1 → is_ok (fst (get_table t' st)) = true) →
  fst (get_table t st) = Raise e →
  dfs st = (Raise e, st).
Proof.
  intros Hl Hok Ht. unfold dfs, bind, getattr. rewrite Hl.
  apply dfs_loop_raises.
  - intros t' Ht'. specialize (Hok t' Ht'). by rewrite get_table_run in Hok.
  - by rewrite get_table_run in Ht.
Qed.

(** X9. On an object whose [non_empty_tables] was never assigned, whatever
    the reason, [dfs] raises [AttributeError] at once, and neither
    [write_all_tables_to_csv] nor [write_all_tables_to_sqlite] ever returns
    normally: once its directory is there, the CSV export raises
    [AttributeError]. *)
Theorem exports_need_non_empty_tables (st : State) :
  non_empty_tables (self st) = None →
  dfs st = (Raise (AttributeError "non_empty_tables"), st) ∧
  (∀ directory,
     (∃ e, fst (write_all_tables_to_csv directory st) = Raise e) ∧
     (fst (check_dir directory st) = Ok tt →
      fst (write_all_tables_to_csv directory st) =
        Raise (AttributeError "non_empty_tables"))) ∧
  (∀ destination_path,
     ∃ e, fst (write_all_tables_to_sqlite destination_path st) = Raise e).
Proof.
  intros Hnone. split; [|split].
  - unfold dfs, bind, getattr. by rewrite Hnone.
  - intros directory. unfold write_all_tables_to_csv, bind.
    pose proof (check_dir_source directory st) as Hsrc.
    destruct (check_dir directory st) as [[[]|e] st1]; simpl in *.
    + injection Hsrc as Hself _. unfold getattr. rewrite Hself, Hnone.
      split; eauto.
    + split; [eauto|discriminate].
  - intros destination_path.
    unfold write_all_tables_to_sqlite, with_connect, create_engine.
    unfold bind at 1, ret at 1. unfold bind at 1.
    assert (self (snd (engine_connect ("sqlite:///" +:+ destination_path) st))
            = self st) as Hself.
    { apply (f_equal fst
        ((ltac:(frame) : preserves source_view (engine_connect _)) st)). }
    destruct (engine_connect _ st) as [[c|e] st1]; simpl in *; [|eauto].
    unfold try_finally, bind at 1, getattr. rewrite Hself, Hnone.
    destruct c; simpl; eauto.
Qed.

(** ** What the operations never do *)

Lemma write_table_to_csv_quiet (table directory : string) :
  preserves quiet_view (write_table_to_csv table directory).
Proof.
  unfold write_table_to_csv.
  apply preserves_bind; [apply check_dir_quiet|]. intros _. frame.
Qed.

Lemma write_table_to_sqlite_quiet (table : string) (c : sqlite_conn) :
  preserves quiet_view (write_table_to_sqlite table c).
Proof.
  unfold write_table_to_sqlite.
  apply preserves_bind; [apply preserves_get_table|]. intros df.
  destruct c; frame.
Qed.

Lemma run_operation_quiet (o : operation) :
  preserves quiet_view (run_operation o).
Proof.
  destruct o; simpl.
  - frame.
  - frame.
  - apply write_table_to_csv_quiet.
  - apply preserves_bind; [|intros ?; apply preserves_ret].
    intros st0. rewrite dfs_state. reflexivity.
  - unfold write_all_tables_to_csv.
    apply preserves_bind; [apply check_dir_quiet|]. intros _.
    apply preserves_bind; [frame|]. intros l.
    apply preserves_for_each. intros t. apply write_table_to_csv_quiet.
  - apply write_table_to_sqlite_quiet.
  - unfold write_all_tables_to_sqlite, with_connect.
    apply preserves_bind; [frame|]. intros url.
    apply preserves_bind; [frame|]. intros c.
    apply preserves_try_finally; [|destruct c; frame].
    apply preserves_bind; [frame|]. intros l.
    apply preserves_for_each. intros t. apply write_table_to_sqlite_quiet.
Qed.

(** X10. No operation on a constructed object prints, reassigns an
    attribute or touches a source: after [get_table], [table_length],
    [dfs] and each of the four exports, returning or raising, the object,
    the sources and the standard output are what they were. *)
Theorem operations_are_quiet (o : operation) (st : State) :
  self (snd (run_operation o st)) = self st ∧
  odbc (world (snd (run_operation o st))) = odbc (world st) ∧
  stdout (world (snd (run_operation o st))) = stdout (world st).
Proof.
  pose proof (run_operation_quiet o st) as Hq.
  unfold quiet_view in Hq. by injection Hq.
Qed.

(** ** The CSV export as a whole *)


















(** ** The SQLite export as a whole *)







(** ** The command *)





(** ** The operations on one table *)

Lemma check_dir_world (dir_path : string) (o o' : GintDatabase) (w : World) :
  fst (check_dir dir_path {| self := o; world := w |}) =
    fst (check_dir dir_path {| self := o'; world := w |}) ∧
  world (snd (check_dir dir_path {| self := o; world := w |})) =
    world (snd (check_dir dir_path {| self := o'; world := w |})) ∧
  self (snd (check_dir dir_path {| self := o; world := w |})) = o.
Proof.
  rewrite !check_dir_run. simpl.
  destruct (path_exists w dir_path); [by repeat split|].
  rewrite !os_makedirs_run. by repeat split.
Qed.

(** X17. [get_table], [table_length], [write_table_to_csv] and
    [write_table_to_sqlite] use nothing of the object but its connection:
    on two objects with the same connection, in the same world, they have
    the same outcome and leave the same world, whatever [table_names] and
    [non_empty_tables] hold, assigned or not. *)
Theorem table_operations_use_the_connection_only (o o' : GintDatabase)
    (w : World) (table directory : string) (c : sqlite_conn) :
  cnxn o = cnxn o' →
  let st := {| self := o; world := w |} in
  let st' := {| self := o'; world := w |} in
  fst (get_table table st) = fst (get_table table st') ∧
  fst (table_length table st) = fst (table_length table st') ∧
  fst (write_table_to_csv table directory st) =
    fst (write_table_to_csv table directory st') ∧
  world (snd (write_table_to_csv table directory st)) =
    world (snd (write_table_to_csv table directory st')) ∧
  fst (write_table_to_sqlite table c st) =
    fst (write_table_to_sqlite table c st') ∧
  world (snd (write_table_to_sqlite table c st)) =
    world (snd (write_table_to_sqlite table c st')).
Proof.
  intros Hc st st'.
  assert (read_table st table = read_table st' table) as Hread
    by (by apply read_table_ext).
  rewrite !get_table_run, !table_length_run, !write_table_to_csv_run,
    !write_table_to_sqlite_run, Hread. simpl.
  split; [reflexivity|]. split; [reflexivity|].
  destruct (check_dir_world directory o o' w) as (Hr & Hw & _).
  fold st st' in Hr, Hw.
  assert (fst (match check_dir directory st with
               | (Ok _, st1) =>
                   match read_table st' table with
                   | Ok df =>
                       write_text (os_path_join directory (table +:+ ".csv"))
                         (to_csv_text df false) st1
                   | Raise e => (Raise e, st1)
                   end
               | (Raise e, st1) => (Raise e, st1)
               end) =
          fst (match check_dir directory st' with
               | (Ok _, st1) =>
                   match read_table st' table with
                   | Ok df =>
                       write_text (os_path_join directory (table +:+ ".csv"))
                         (to_csv_text df false) st1
                   | Raise e => (Raise e, st1)
                   end
               | (Raise e, st1) => (Raise e, st1)
               end) ∧
          world (snd (match check_dir directory st with
               | (Ok _, st1) =>
                   match read_table st' table with
                   | Ok df =>
                       write_text (os_path_join directory (table +:+ ".csv"))
                         (to_csv_text df false) st1
                   | Raise e => (Raise e, st1)
                   end
               | (Raise e, st1) => (Raise e, st1)
               end)) =
          world (snd (match check_dir directory st' with
               | (Ok _, st1) =>
                   match read_table st' table with
                   | Ok df =>
                       write_text (os_path_join directory (table +:+ ".csv"))
                         (to_csv_text df false) st1
                   | Raise e => (Raise e, st1)
                   end
               | (Raise e, st1) => (Raise e, st1)
               end))) as [Hcsv1 Hcsv2].
  { destruct (check_dir directory st) as [r1 st1];
      destruct (check_dir directory st') as [r1' st1']; simpl in Hr, Hw.
    subst r1'. destruct r1 as [[]|e]; [|by split].
    destruct (read_table st' table) as [df|e]; [|by split].
    rewrite !write_text_run, <- Hw.
    repeat case_match; by split. }
  split; [exact Hcsv1|]. split; [exact Hcsv2|].
  destruct (read_table st' table) as [df|e]; [|by split].
  rewrite !DataFrame_to_sql_replace_run. simpl.
  destruct (conn_tables w c); by split.
Qed.

End Properties.

(** * The program on the sample site *)

Example paths_of_an_export :
  os_path_join "out/csv" "table1.csv" = "out/csv/table1.csv" ∧
  os_path_join "out/" "table1.csv" = "out/table1.csv" ∧
  parse_path "out/csv/table1.csv" = ["out"; "csv"; "table1.csv"] ∧
  prefixes (parse_path "/data/out") = [["/"]; ["/"; "data"]; ["/"; "data"; "out"]].
Proof. repeat split; reflexivity. Qed.

(** Plain paths, and paths the readiness conditions turn down because the
    operating system would resolve a component away. *)
Example plain_paths :
  plain_path "out" = true ∧
  plain_path "out/csv" = true ∧
  plain_path "/data/out" = true ∧
  plain_path "" = false ∧
  plain_path "/" = false ∧
  plain_path "out/" = false ∧
  plain_path "./out" = false ∧
  plain_path "a//b" = false ∧
  plain_path "a/.." = false ∧
  plain_path "b/../c" = false ∧
  dir_ready site_world "a/.." = false ∧
  csv_writable site_world "a/.." "table1" = false ∧
  dir_ready (world blocked_state) "out/" = false.
Proof. repeat split; reflexivity. Qed.

(** A file left by an earlier run is replaced. *)
Example csv_export_overwrites :
  let st := {| self := self site_state;
               world := set_fs {[ ["out"] := NDir;
                                  ["out"; "table1.csv"] := NFile "stale" ]}
                          (world site_state) |} in
  let r := write_table_to_csv "table1" "out" st in
  fst r = Ok tt ∧
  fs (world (snd r)) !! ["out"; "table1.csv"] =
    Some (NFile ("col1,col2" +:+ newline +:+ "1,3" +:+ newline +:+
                 "2,4" +:+ newline)).
Proof. repeat split; reflexivity. Qed.

(** The set of non-empty tables is the one of construction time: on the
    later site the export still writes [table1], now a header alone, and
    nothing for [table2], although it has rows by then. *)
Example export_with_stale_table_set :
  let r := write_all_tables_to_csv "out" later_state in
  fst (table_length "table1" later_state) = Ok 0 ∧
  fst (table_length "table2" later_state) = Ok 2 ∧
  fst r = Ok tt ∧
  fs (world (snd r)) !! ["out"; "table1.csv"] =
    Some (NFile ("col1,col2" +:+ newline)) ∧
  fs (world (snd r)) !! ["out"; "table2.csv"] = None.
Proof. repeat split; reflexivity. Qed.

(** The scenario of the specification: [table1] has two rows, [table2]
    none; the CSV export writes [table1.csv] with its header and two data
    rows and writes nothing for [table2]. *)
Example site_csv_export :
  let r := write_all_tables_to_csv "out" site_state in
  fst r = Ok tt ∧
  fs (world (snd r)) !! ["out"; "table1.csv"] =
    Some (NFile ("col1,col2" +:+ newline +:+ "1,3" +:+ newline +:+
                 "2,4" +:+ newline)) ∧
  fs (world (snd r)) !! ["out"; "table2.csv"] = None.
Proof. repeat split; reflexivity. Qed.

(** C1. The enumeration raising, the constructor catches and prints the
    exception and returns, but assigns neither [table_names] nor
    [non_empty_tables]: the next export makes its directory (or creates its
    database file) and then raises [AttributeError]; run from the command
    line, the program exits with status 1. *)
Theorem enumeration_failure_breaks_exports :
  fst (construct sample_system_tables "damaged.mdb" (boot site_world)) = Ok tt ∧
  stdout (world damaged_state) =
    ["Failed to load database with not a valid database file"] ∧
  table_names (self damaged_state) = None ∧
  non_empty_tables (self damaged_state) = None ∧
  fst (write_all_tables_to_csv "out" damaged_state) =
    Raise (AttributeError "non_empty_tables") ∧
  fs (world (snd (write_all_tables_to_csv "out" damaged_state))) !! ["out"] =
    Some NDir ∧
  fst (write_all_tables_to_sqlite "out.db" damaged_state) =
    Raise (AttributeError "non_empty_tables") ∧
  fs (world (snd (write_all_tables_to_sqlite "out.db" damaged_state)))
    !! ["out.db"] = Some (NFile "") ∧
  fst (dfs damaged_state) = Raise (AttributeError "non_empty_tables") ∧
  fst (run_main sample_system_tables
         {| arg_file_path := "damaged.mdb"; arg_dir := "out";
            arg_format := "csv" |} site_world) = 1.
Proof. repeat split; reflexivity. Qed.



Lemma table_names_is_filtered_enumeration_witness :
  odbc site_world !! conn_string "site.mdb" = Some site_source ∧
  catalog site_source = Ok site_catalog ∧
  table_names (self site_state) = Some ["table1"; "table2"].
Proof.
  assert (odbc site_world !! conn_string "site.mdb" = Some site_source) as H1
    by reflexivity.
  assert (catalog site_source = Ok site_catalog) as H2 by reflexivity.
  destruct (table_names_is_filtered_enumeration (lib := sample_lib)
              sample_system_tables "site.mdb" (boot site_world) site_source
              site_catalog H1 H2) as (_ & l & Hl & Heq & _).
  split; [exact H1|]. split; [exact H2|].
  change (table_names (self site_state) = Some l) in Hl. rewrite Hl, Heq.
  reflexivity.
Defined.



Lemma table_length_counts_get_table_witness :
  fst (get_table "table1" site_state) = Ok table1 ∧
  fst (table_length "table1" site_state) = Ok 2 ∧
  fst (table_length "table2" site_state) = Ok 0 ∧
  fst (table_length "table3" site_state) = Raise (DatabaseError "no such table").
Proof.
  destruct (table_length_counts_get_table (lib := sample_lib) "table1"
              site_state) as (H1 & _).
  destruct (table_length_counts_get_table (lib := sample_lib) "table2"
              site_state) as (H2 & _).
  destruct (table_length_counts_get_table (lib := sample_lib) "table3"
              site_state) as (H3 & _).
  rewrite H1, H2, H3. repeat split; reflexivity.
Defined.



Lemma dfs_is_the_dict_of_non_empty_tables_witness :
  non_empty_tables (self site_state) = Some ["table1"] ∧
  ∃ d, dfs site_state = (Ok d, site_state) ∧ d.*1 = ["table1"].
Proof.
  assert (non_empty_tables (self site_state) = Some ["table1"]) as H1
    by reflexivity.
  destruct (dfs_is_the_dict_of_non_empty_tables (lib := sample_lib) site_state
              ["table1"] H1) as (d & Hrun & Hkeys & _).
  { intros t Hin. apply list_elem_of_singleton in Hin as ->. reflexivity. }
  split; [exact H1|]. exists d. split; [exact Hrun|exact Hkeys].
Defined.

(** ** Further properties on the sample site *)



Lemma connection_failure_escapes_witness :
  let args := {| arg_file_path := "missing.mdb"; arg_dir := "out";
                 arg_format := "sqlite" |} in
  odbc site_world !! conn_string (arg_file_path args) = None ∧
  run_main sample_system_tables args site_world = (1, site_world).
Proof.
  intros args.
  assert (odbc site_world !! conn_string (arg_file_path args) = None) as H1
    by reflexivity.
  destruct (connection_failure_escapes (lib := sample_lib)
              sample_system_tables args site_world H1) as [_ Hrun]. auto.
Defined.

Lemma failed_count_leaves_non_empty_tables_unset_witness :
  odbc flaky_world !! conn_string "flaky.mdb" = Some flaky_source ∧
  run_query flaky_source (select_all "table2") =
    Raise (DatabaseError "table2 is corrupt") ∧
  table_names (self flaky_state) = Some ["table1"; "table2"] ∧
  non_empty_tables (self flaky_state) = None ∧
  stdout (world flaky_state) =
    ["Failed to load database with table2 is corrupt"].
Proof.
  assert (odbc flaky_world !! conn_string "flaky.mdb" = Some flaky_source)
    as H1 by reflexivity.
  assert (catalog flaky_source = Ok site_catalog) as H2 by reflexivity.
  assert (user_table_names sample_system_tables site_catalog =
          ["table1"] ++ "table2" :: []) as H3 by reflexivity.
  assert (∀ t', t' ∈ ["table1"] →
                is_ok (run_query flaky_source (select_all t')) = true) as H4.
  { intros t' Hin. apply list_elem_of_singleton in Hin as ->. reflexivity. }
  assert (run_query flaky_source (select_all "table2") =
          Raise (DatabaseError "table2 is corrupt")) as H5 by reflexivity.
  destruct (failed_count_leaves_non_empty_tables_unset (lib := sample_lib)
              sample_system_tables "flaky.mdb" (boot flaky_world) flaky_source
              site_catalog ["table1"] [] "table2" _ H1 H2 H3 H4 H5)
    as (_ & Hnames & Hne & Hout).
  split; [exact H1|]. split; [exact H5|]. split; [exact Hnames|].
  split; [exact Hne|exact Hout].
Defined.

Lemma site_tables_readable (t : string) :
  t ∈ user_table_names sample_system_tables site_catalog →
  is_ok (run_query site_source (select_all t)) = true.
Proof.
  change (user_table_names sample_system_tables site_catalog)
    with ["table1"; "table2"].
  intros [->|[->|[]%elem_of_nil]%elem_of_cons]%elem_of_cons; reflexivity.
Qed.

Lemma non_empty_tables_are_the_tables_with_rows_witness :
  odbc site_world !! conn_string "site.mdb" = Some site_source ∧
  catalog site_source = Ok site_catalog ∧
  ∃ l, non_empty_tables (self site_state) = Some l ∧
       ("table1" ∈ l) ∧ ("table2" ∉ l).
Proof.
  assert (odbc site_world !! conn_string "site.mdb" = Some site_source) as H1
    by reflexivity.
  assert (catalog site_source = Ok site_catalog) as H2 by reflexivity.
  destruct (non_empty_tables_are_the_tables_with_rows (lib := sample_lib)
              sample_system_tables "site.mdb" (boot site_world) site_source
              site_catalog H1 H2 site_tables_readable)
    as (_ & _ & _ & l & Hl & _ & Hmem).
  split; [exact H1|]. split; [exact H2|]. exists l. split; [exact Hl|].
  split.
  - apply Hmem. split.
    + apply (bool_decide_unpack _). vm_compute. exact I.
    + exists table1. split; [reflexivity|]. change (0 < 2). lia.
  - intros (_ & df & Hdf & Hpos)%Hmem.
    change (Ok table2 = Ok df) in Hdf. injection Hdf as <-.
    change (0 < 0) in Hpos. lia.
Defined.

Lemma dfs_raises_the_first_failure_witness :
  non_empty_tables (self worn_state) =
    Some (["table1"] ++ "table2" :: ["table3"]) ∧
  fst (get_table "table1" worn_state) = Ok table1 ∧
  fst (get_table "table2" worn_state) =
    Raise (DatabaseError "table2 is corrupt") ∧
  fst (get_table "table3" worn_state) =
    Raise (DatabaseError "table3 is locked") ∧
  dfs worn_state = (Raise (DatabaseError "table2 is corrupt"), worn_state).
Proof.
  assert (non_empty_tables (self worn_state) =
          Some (["table1"] ++ "table2" :: ["table3"])) as H1 by reflexivity.
  assert (fst (get_table "table2" worn_state) =
          Raise (DatabaseError "table2 is corrupt")) as H2 by reflexivity.
  assert (∀ t', t' ∈ ["table1"] →
                is_ok (fst (get_table t' worn_state)) = true) as H3.
  { intros t' ->%list_elem_of_singleton. reflexivity. }
  pose proof (dfs_raises_the_first_failure (lib := sample_lib) worn_state
                ["table1"] ["table3"] "table2"
                (DatabaseError "table2 is corrupt") H1 H3 H2) as Hdfs.
  split; [exact H1|]. split; [reflexivity|]. split; [exact H2|].
  split; [reflexivity|exact Hdfs].
Defined.

Lemma exports_need_non_empty_tables_witness :
  non_empty_tables (self damaged_state) = None ∧
  fst (check_dir "out" damaged_state) = Ok tt ∧
  fst (write_all_tables_to_csv "out" damaged_state) =
    Raise (AttributeError "non_empty_tables").
Proof.
  assert (non_empty_tables (self damaged_state) = None) as H1 by reflexivity.
  assert (fst (check_dir "out" damaged_state) = Ok tt) as H2 by reflexivity.
  destruct (exports_need_non_empty_tables (lib := sample_lib) damaged_state H1)
    as (_ & Hcsv & _).
  destruct (Hcsv "out") as [_ Hattr]. auto.
Defined.









Lemma table_operations_use_the_connection_only_witness :
  let o' := set_cnxn (conn_string "site.mdb") blank in
  cnxn (self site_state) = cnxn o' ∧
  fst (write_table_to_csv "table1" "out"
         {| self := o'; world := world site_state |}) = Ok tt.
Proof.
  intros o'.
  assert (cnxn (self site_state) = cnxn o') as H1 by reflexivity.
  destruct (table_operations_use_the_connection_only (lib := sample_lib)
              (self site_state) o' (world site_state) "table1" "out"
              ConnMemory H1) as (_ & _ & Hcsv & _).
  split; [exact H1|]. rewrite <- Hcsv. reflexivity.
Defined.
